(** * scripts/download_endes.py: a shallow embedding and its properties

    The script fetches a list of URLs and stores each response body in an
    output directory.  Python values are modelled as follows.

    - [str] is [string]; a character is a code point below 256.
    - [dict[str, str]] is [gmap string string]; an assignment [d[k] = v] is
      [<[k:=v]> d], so a later assignment to a key replaces an earlier one.
    - [bytes] is [list byte].
    - An exception is a value of [exn]; a function that may raise returns a
      [Result].
    - The file system, the network and the log are explicit state ([World])
      threaded through a state-and-exception monad [M]; the answers of the
      HTTP client, the temporary-name generator and the text files read are
      given by an environment [Env]. *)

From Stdlib Require Import ZArith NArith Ascii Strings.Byte Lia.
From stdpp Require Import base option list gmap strings.

(** ** Python string operations *)

Definition code (c : ascii) : N := N_of_ascii c.

(** [str.isspace] on one character: the code points below 256 that Python
    treats as white space. *)
Definition isspace (c : ascii) : bool :=
  let n := code c in
  (((9 <=? n) && (n <=? 13)) || ((28 <=? n) && (n <=? 32))
   || (n =? 133) || (n =? 160))%N.

Fixpoint lstrip_by (p : ascii → bool) (s : string) : string :=
  match s with
  | "" => ""
  | String c s' => if p c then lstrip_by p s' else s
  end.

Fixpoint rstrip_by (p : ascii → bool) (s : string) : string :=
  match s with
  | "" => ""
  | String c s' =>
      match rstrip_by p s' with
      | "" => if p c then "" else String c ""
      | r => String c r
      end
  end.

Definition strip_by (p : ascii → bool) (s : string) : string :=
  lstrip_by p (rstrip_by p s).

Fixpoint char_in (c : ascii) (chars : string) : bool :=
  match chars with
  | "" => false
  | String d chars' => if decide (c = d) then true else char_in c chars'
  end.

(** [s.strip()] *)
Definition strip (s : string) : string := strip_by isspace s.

(** [s.strip(chars)] *)
Definition strip_chars (chars s : string) : string :=
  strip_by (λ c, char_in c chars) s.

(** [s.startswith(p)] *)
Fixpoint startswith (p s : string) : bool :=
  match p, s with
  | "", _ => true
  | String a p', String b s' => if decide (a = b) then startswith p' s' else false
  | String _ _, "" => false
  end.

(** [s[:n]] and [s[n:]] for [n >= 0] *)
Fixpoint str_take (n : nat) (s : string) : string :=
  match n, s with
  | S n', String c s' => String c (str_take n' s')
  | _, _ => ""
  end.

Fixpoint str_drop (n : nat) (s : string) : string :=
  match n, s with
  | S n', String _ s' => str_drop n' s'
  | _, _ => s
  end.

(** [s.find(sub)]; [None] stands for [-1]. *)
Fixpoint find (sub s : string) : option nat :=
  if startswith sub s then Some 0
  else match s with
       | "" => None
       | String _ s' => S <$> find sub s'
       end.

(** [s.rfind(sub)] for a non-empty [sub]; [None] stands for [-1]. *)
Fixpoint rfind (sub s : string) : option nat :=
  match s with
  | "" => None
  | String _ s' =>
      match rfind sub s' with
      | Some i => Some (S i)
      | None => if startswith sub s then Some 0 else None
      end
  end.

(** [sub in s] *)
Definition contains (sub s : string) : bool := bool_decide (is_Some (find sub s)).

(** [s.split(sep)] for a non-empty [sep]: cut at the first occurrence,
    continue behind it.  Every cut consumes a character, so [length s]
    rounds are enough. *)
Fixpoint split_fuel (fuel : nat) (sep s : string) : list string :=
  match fuel with
  | O => [s]
  | S fuel' =>
      match find sep s with
      | Some i =>
          str_take i s :: split_fuel fuel' sep (str_drop (i + String.length sep) s)
      | None => [s]
      end
  end.

Definition split (sep s : string) : list string :=
  split_fuel (String.length s) sep s.

(** [s.split(sep, 1)] *)
Definition split1 (sep s : string) : list string :=
  match find sep s with
  | Some i => [str_take i s; str_drop (i + String.length sep) s]
  | None => [s]
  end.

(** [s.replace(c, "")] for a one-character [c] *)
Fixpoint remove_char (c : ascii) (s : string) : string :=
  match s with
  | "" => ""
  | String d s' => if decide (c = d) then remove_char c s' else String d (remove_char c s')
  end.

Definition is_upper (c : ascii) : bool := ((65 <=? code c) && (code c <=? 90))%N.
Definition is_lower (c : ascii) : bool := ((97 <=? code c) && (code c <=? 122))%N.

(** [s.lower()] on ASCII letters *)
Fixpoint lower (s : string) : string :=
  match s with
  | "" => ""
  | String c s' =>
      String (if is_upper c then ascii_of_N (code c + 32) else c) (lower s')
  end.

Fixpoint str_forallb (p : ascii → bool) (s : string) : bool :=
  match s with
  | "" => true
  | String c s' => p c && str_forallb p s'
  end.

(** The double quote character. *)
Definition dquote : string := String (ascii_of_N 34) "".

(** ** Exceptions and results *)

Inductive Failure :=
  | InvalidHeaderFormat (raw_header : string)
  | HttpStatus (status : Z) (url : string)
  | DownloadedFileIsEmpty (output_path : string).

(** [DownloadError] is the script's own exception class; the others come
    from the libraries it calls. *)
Inductive exn :=
  | DownloadError (why : Failure)
  | ValueError
  | URLError (reason : string)
  | IncompleteRead
  | FileExistsError
  | OSError (path : string).

Inductive Result (A : Type) :=
  | Ok (a : A)
  | Raise (e : exn).
Arguments Ok {A} a.
Arguments Raise {A} e.

(** ** build_headers *)

(** One pass of the loop body: the colon test, the split at the first
    colon, the assignment of the trimmed pair. *)
Definition add_header (headers : gmap string string) (raw_header : string)
  : Result (gmap string string) :=
  if negb (contains ":" raw_header) then
    Raise (DownloadError (InvalidHeaderFormat raw_header))
  else
    match split1 ":" raw_header with
    | [name; value] => Ok (<[strip name := strip value]> headers)
    | _ => Raise ValueError
    end.

Fixpoint add_headers (headers : gmap string string) (extra_headers : list string)
  : Result (gmap string string) :=
  match extra_headers with
  | [] => Ok headers
  | raw_header :: rest =>
      match add_header headers raw_header with
      | Ok headers' => add_headers headers' rest
      | Raise e => Raise e
      end
  end.

(** The Python truth test on an optional string, as in [if referer:] and
    [if not path:]: the string when it is present and not empty. *)
Definition truthy (o : option string) : option string :=
  match o with
  | Some s => if decide (s = "") then None else Some s
  | None => None
  end.

Definition build_headers (user_agent : string) (referer : option string)
    (extra_headers : list string) : Result (gmap string string) :=
  let headers : gmap string string := {["User-Agent" := user_agent]} in
  let headers :=
    match truthy referer with
    | Some r => <["Referer" := r]> headers
    | None => headers
    end in
  add_headers headers extra_headers.

(** ** The environment and the state *)

(** What the server sends as a body: all of it, or a part before the
    connection breaks. *)
Inductive Payload :=
  | Complete (data : list byte)
  | Interrupted (data : list byte).

Record Response := {
  status : Z;
  resp_headers : list (string * string);
  payload : Payload
}.

Inductive UrlResult :=
  | Responds (response : Response)
  | Fails (e : exn).

(** The answers of the world outside the script.
    - [http_get n url headers timeout]: what the HTTP client does with the
      request number [n] of the run, from [Request(...)] to the end of
      [urlopen(...)]: it raises, or it hands over a response.
    - [temp_names n]: the names the temporary-name generator proposes, in
      order, for the temporary file number [n] of the run.
    - [text_file path]: the text of a readable file, [None] when [open]
      raises. *)
Record Env := {
  http_get : nat → string → gmap string string → Z → UrlResult;
  temp_names : nat → list string;
  text_file : string → option string
}.

Inductive Message :=
  | Downloading (url : string)
  | Saved (output_path : string) (size : nat)
  | NoUrlsProvided
  | FailedToDownload (url : string) (exc : exn)
  | FailedDownloads (failures : list string)
  | AllCompleted.

Inductive Level := INFO | ERROR.

(** The file store maps a path to the content of the regular file there;
    directories are implicit.  Calls of the operating system succeed
    whenever the store allows them.  [requests] lists the requests handed
    to the HTTP client, [temps_made] counts the temporary files asked
    for, [log] is what [logging] wrote. *)
Record World := {
  files : gmap string (list byte);
  requests : list (string * gmap string string);
  temps_made : nat;
  log : list (Level * Message)
}.

Definition M (A : Type) : Type := World → Result A * World.

Definition ret {A} (a : A) : M A := λ w, (Ok a, w).
Definition raise {A} (e : exn) : M A := λ w, (Raise e, w).
Definition bind {A B} (m : M A) (k : A → M B) : M B :=
  λ w, match m w with
       | (Ok a, w') => k a w'
       | (Raise e, w') => (Raise e, w')
       end.
(** [try: m  except Exception as exc: h exc] *)
Definition try_except {A} (m : M A) (h : exn → M A) : M A :=
  λ w, match m w with
       | (Ok a, w') => (Ok a, w')
       | (Raise e, w') => h e w'
       end.
Definition lift {A} (r : Result A) : M A := λ w, (r, w).

Declare Scope py_scope.
Delimit Scope py_scope with py.
Notation "x <- m ;; k" := (bind m (λ x, k))
  (at level 100, m at next level, right associativity) : py_scope.
Notation "m ;;; k" := (bind m (λ _, k))
  (at level 100, right associativity) : py_scope.
Open Scope py_scope.

Definition set_files (f : gmap string (list byte)) (w : World) : World :=
  {| files := f; requests := requests w; temps_made := temps_made w; log := log w |}.

Definition add_request (url : string) (headers : gmap string string) (w : World) : World :=
  {| files := files w; requests := requests w ++ [(url, headers)];
     temps_made := temps_made w; log := log w |}.

Definition add_temp (w : World) : World :=
  {| files := files w; requests := requests w;
     temps_made := S (temps_made w); log := log w |}.

Definition add_log (lvl : Level) (msg : Message) (w : World) : World :=
  {| files := files w; requests := requests w;
     temps_made := temps_made w; log := log w ++ [(lvl, msg)] |}.

(** [logging.info(...)] and [logging.error(...)] *)
Definition logging (lvl : Level) (msg : Message) : M unit :=
  λ w, (Ok (), add_log lvl msg w).

(** [urlopen(Request(url, headers=headers), timeout=timeout)]: one request
    is handed to the client and recorded; the client raises or hands over
    a response. *)
Definition urlopen (env : Env) (url : string) (headers : gmap string string)
    (timeout : Z) : M Response :=
  λ w,
    match http_get env (length (requests w)) url headers timeout with
    | Responds response => (Ok response, add_request url headers w)
    | Fails e => (Raise e, add_request url headers w)
    end.

(** ** Paths *)

Definition endswith_slash (s : string) : bool :=
  match rfind "/" s with
  | Some i => bool_decide (S i = String.length s)
  | None => false
  end.

(** [dir / name] on POSIX paths kept as text: an absolute right operand
    replaces the left one.  The normalisation that [pathlib] applies to
    ["."] segments and repeated separators is left out. *)
Definition path_join (dir name : string) : string :=
  if startswith "/" name then name
  else if decide (dir = "") then name
  else if endswith_slash dir then dir +:+ name
  else dir +:+ "/" +:+ name.

(** [os.path.basename(p)] *)
Definition basename (p : string) : string :=
  match rfind "/" p with
  | Some i => str_drop (S i) p
  | None => p
  end.

(** ** File operations *)

(** [dir.mkdir(parents=True, exist_ok=True)]: directories are implicit in
    the store, where a file can be created at any path, so the call
    changes nothing that the model tracks. *)
Definition mkdir (dir : string) : M unit := ret ().

(** The first name, among those the generator proposes for the next
    temporary file, that is free in [dir]. *)
Definition free_name (env : Env) (dir : string) (w : World) : option string :=
  snd <$> list_find (λ name, files w !! path_join dir name = None)
                    (temp_names env (temps_made w)).

(** [tempfile.NamedTemporaryFile(dir=dir, delete=False)]: the first proposed
    name that is free in [dir] is taken and an empty file is created there;
    when every proposal is taken the call raises. *)
Definition NamedTemporaryFile (env : Env) (dir : string) : M string :=
  λ w,
    match free_name env dir w with
    | Some name =>
        (Ok (path_join dir name),
         set_files (<[path_join dir name := []]> (files w)) (add_temp w))
    | None => (Raise FileExistsError, add_temp w)
    end.

(** [shutil.copyfileobj(response, temp_file)] followed by the close of the
    file: what was received is in the file, also when the stream breaks. *)
Definition copyfileobj (response : Response) (temp_name : string) : M unit :=
  λ w,
    match payload response with
    | Complete data => (Ok (), set_files (<[temp_name := data]> (files w)) w)
    | Interrupted data => (Raise IncompleteRead, set_files (<[temp_name := data]> (files w)) w)
    end.

Definition getsize (path : string) : M nat :=
  λ w, match files w !! path with
       | Some data => (Ok (length data), w)
       | None => (Raise (OSError path), w)
       end.

Definition path_exists (path : string) : M bool :=
  λ w, (Ok (bool_decide (is_Some (files w !! path))), w).

Definition os_remove (path : string) : M unit :=
  λ w, match files w !! path with
       | Some _ => (Ok (), set_files (delete path (files w)) w)
       | None => (Raise (OSError path), w)
       end.

(** [os.replace(src, dst)]: one step that takes the file away from [src]
    and puts it at [dst], over whatever was there. *)
Definition os_replace (src dst : string) : M unit :=
  λ w, match files w !! src with
       | Some data => (Ok (), set_files (<[dst := data]> (delete src (files w))) w)
       | None => (Raise (OSError src), w)
       end.

(** ** urllib.parse.urlparse *)

(** The algorithm of the standard library that computes the components of
    a URL.  The rejection of a malformed bracketed host ([ValueError]) is
    left out: it concerns the host, and the script reads the path only. *)
Record ParseResult := {
  scheme : string;
  netloc : string;
  path : string;
  params : string;
  query : string;
  fragment : string
}.

Definition scheme_chars : string :=
  "abcdefghijklmnopqrstuvwxyzABCDEFGHIJKLMNOPQRSTUVWXYZ0123456789+-.".

Definition uses_params : list string :=
  [""; "ftp"; "hdl"; "prospero"; "http"; "imap"; "https"; "shttp"; "rtsp";
   "rtspu"; "sip"; "sips"; "mms"; "sftp"; "tel"].

(** Leading C0 control characters and spaces are stripped, then tab,
    carriage return and line feed are removed everywhere. *)
Definition url_clean (url : string) : string :=
  remove_char (ascii_of_N 10) (remove_char (ascii_of_N 13) (remove_char (ascii_of_N 9)
    (lstrip_by (λ c, (code c <=? 32)%N) url))).

(** [scheme, url = url[:i].lower(), url[i+1:]] when the text before the
    first colon is a scheme name. *)
Definition split_scheme (url : string) : string * string :=
  match find ":" url, url with
  | Some (S i), String c0 _ =>
      if (is_upper c0 || is_lower c0)
         && str_forallb (λ c, char_in c scheme_chars) (str_take (S i) url)
      then (lower (str_take (S i) url), str_drop (S (S i)) url)
      else ("", url)
  | _, _ => ("", url)
  end.

(** The index of the first character of [s] that occurs in [chars], the
    length of [s] when there is none. *)
Fixpoint find_any (chars s : string) : nat :=
  match s with
  | "" => 0
  | String c s' => if char_in c chars then 0 else S (find_any chars s')
  end.

(** [_splitnetloc(url, 2)] behind a leading ["//"] *)
Definition split_netloc (url : string) : string * string :=
  if startswith "//" url then
    let rest := str_drop 2 url in
    let delim := find_any "/?#" rest in
    (str_take delim rest, str_drop delim rest)
  else ("", url).

(** [url, tail = url.split(sep, 1)] when [sep in url] *)
Definition cut_at (sep url : string) : string * string :=
  match find sep url with
  | Some i => (str_take i url, str_drop (i + String.length sep) url)
  | None => (url, "")
  end.

Definition splitparams (url : string) : string * string :=
  match rfind "/" url with
  | Some j =>
      match find ";" (str_drop j url) with
      | Some i => (str_take (j + i) url, str_drop (S (j + i)) url)
      | None => (url, "")
      end
  | None =>
      match find ";" url with
      | Some i => (str_take i url, str_drop (S i) url)
      | None => (url, "")
      end
  end.

Definition urlparse (url : string) : ParseResult :=
  let '(scheme, url) := split_scheme (url_clean url) in
  let '(netloc, url) := split_netloc url in
  let '(url, fragment) := cut_at "#" url in
  let '(url, query) := cut_at "?" url in
  let '(url, params) :=
    if bool_decide (scheme ∈ uses_params) && contains ";" url
    then splitparams url else (url, "") in
  {| scheme := scheme; netloc := netloc; path := url; params := params;
     query := query; fragment := fragment |}.

(** ** infer_filename *)

(** [parts[-1]] of a list that [split] returned *)
Definition last_part (parts : list string) : string := default "" (last parts).

Definition infer_filename (url : string) (headers : gmap string string) : string :=
  let content_disposition := default "" (headers !! "Content-Disposition") in
  let from_url :=
    let parsed := urlparse url in
    let name := basename (path parsed) in
    if decide (name = "") then "downloaded_file" else name in
  if contains "filename=" content_disposition then
    let value :=
      strip_chars dquote (strip (last_part (split "filename=" content_disposition))) in
    if decide (value = "") then from_url else value
  else from_url.

(** ** read_url_file *)

(** Text mode with universal newlines: ["\r\n"] and ["\r"] are read as
    ["\n"]. *)
Fixpoint universal_newlines (s : string) : string :=
  match s with
  | "" => ""
  | String c s' =>
      if decide (c = ascii_of_N 13) then
        String (ascii_of_N 10)
          match s' with
          | String d s'' =>
              if decide (d = ascii_of_N 10) then universal_newlines s''
              else universal_newlines s'
          | "" => ""
          end
      else String c (universal_newlines s')
  end.

(** The lines an open text file yields, each with its line feed. *)
Fixpoint lines_of (s : string) : list string :=
  match s with
  | "" => []
  | String c s' =>
      if decide (c = ascii_of_N 10) then String c "" :: lines_of s'
      else match lines_of s' with
           | [] => [String c ""]
           | line :: rest => String c line :: rest
           end
  end.

Definition readlines (text : string) : list string :=
  lines_of (universal_newlines text).

(** The body of [for line in handle]. *)
Definition url_line (urls : list string) (line : string) : list string :=
  let stripped := strip line in
  if bool_decide (stripped = "") || startswith "#" stripped then urls
  else urls ++ [stripped].

Definition read_url_file (env : Env) (path : option string) : Result (list string) :=
  match truthy path with
  | None => Ok []
  | Some p =>
      match text_file env p with
      | Some text => Ok (foldl url_line [] (readlines text))
      | None => Raise (OSError p)
      end
  end.

(** ** download_file *)

(** [d[key] = value] *)
Definition assign (d : gmap string string) (kv : string * string) : gmap string string :=
  <[kv.1 := kv.2]> d.

(** [{key: value for key, value in items}] *)
Definition dict_of_items (items : list (string * string)) : gmap string string :=
  foldl assign ∅ items.

Definition download_file (env : Env) (url output_dir : string)
    (headers : gmap string string) (timeout : Z) : M string :=
  logging INFO (Downloading url) ;;;
  response <- urlopen env url headers timeout ;;
  (if decide (status response = 200%Z) then ret ()
   else raise (DownloadError (HttpStatus (status response) url))) ;;;
  let headers := dict_of_items (resp_headers response) in
  let filename := infer_filename url headers in
  let output_path := path_join output_dir filename in
  mkdir output_dir ;;;
  temp_name <- NamedTemporaryFile env output_dir ;;
  copyfileobj response temp_name ;;;
  size <- getsize temp_name ;;
  if decide (size = 0) then
    (present <- path_exists temp_name ;;
     if present then os_remove temp_name else ret ()) ;;;
    raise (DownloadError (DownloadedFileIsEmpty output_path))
  else
    os_replace temp_name output_path ;;;
    logging INFO (Saved output_path size) ;;;
    ret output_path.

(** ** collect_urls *)

Record Args := {
  args_url : list string;
  args_url_file : option string;
  args_output_dir : string;
  args_user_agent : string;
  args_referer : option string;
  args_header : list string;
  args_timeout : Z
}.

Definition DEFAULT_USER_AGENT : string :=
  "Mozilla/5.0 (compatible; ENDESDownloader/1.0)".

(** The body of [for url in urls], on the pair [(unique_urls, seen)]. *)
Definition keep_first (acc : list string * gset string) (url : string)
  : list string * gset string :=
  if decide (url ∈ acc.2) then acc
  else (acc.1 ++ [url], {[url]} ∪ acc.2).

Definition unique_in_order (urls : list string) : list string :=
  (foldl keep_first ([], ∅) urls).1.

Definition collect_urls (env : Env) (args : Args) : Result (list string) :=
  match read_url_file env (args_url_file args) with
  | Ok from_file => Ok (unique_in_order (args_url args ++ from_file))
  | Raise e => Raise e
  end.

(** ** main *)

(** The body of [for url in urls]: the call, and the handler that logs the
    failure and appends the URL to [failures]. *)
Definition attempt (env : Env) (output_dir : string) (headers : gmap string string)
    (timeout : Z) (failures : list string) (url : string) : M (list string) :=
  try_except
    (download_file env url output_dir headers timeout ;;; ret failures)
    (λ exc, logging ERROR (FailedToDownload url exc) ;;; ret (failures ++ [url])).

Fixpoint download_all (env : Env) (output_dir : string) (headers : gmap string string)
    (timeout : Z) (failures : list string) (urls : list string) : M (list string) :=
  match urls with
  | [] => ret failures
  | url :: rest =>
      failures' <- attempt env output_dir headers timeout failures url ;;
      download_all env output_dir headers timeout failures' rest
  end.

(** The value is the exit status; an exception that leaves [main] ends the
    program with a traceback. *)
Definition main (env : Env) (args : Args) : M Z :=
  urls <- lift (collect_urls env args) ;;
  match urls with
  | [] => logging ERROR NoUrlsProvided ;;; ret 2%Z
  | _ :: _ =>
      let output_dir := args_output_dir args in
      headers <- lift (build_headers (args_user_agent args) (args_referer args)
                                     (args_header args)) ;;
      failures <- download_all env output_dir headers (args_timeout args) [] urls ;;
      match failures with
      | _ :: _ => logging ERROR (FailedDownloads failures) ;;; ret 1%Z
      | [] => logging INFO AllCompleted ;;; ret 0%Z
      end
  end.

(** ** Notions used by the statements *)

(** The last character of a string. *)
Fixpoint str_last (s : string) : option ascii :=
  match s with
  | "" => None
  | String c "" => Some c
  | String _ s' => str_last s'
  end.

Definition str_head (s : string) : option ascii :=
  match s with
  | "" => None
  | String c _ => Some c
  end.

(** [s] neither starts nor ends with a character that [p] accepts. *)
Definition trimmed (p : ascii → bool) (s : string) : Prop :=
  (∀ c, str_head s = Some c → p c = false) ∧ (∀ c, str_last s = Some c → p c = false).

(** The name and the value that a header argument with a colon stands
    for: the text before the first colon and the text behind it, both
    trimmed. *)
Definition header_pair (raw_header : string) : string * string :=
  let '(name, value) := cut_at ":" raw_header in (strip name, strip value).

Definition header_names (extra_headers : list string) : list string :=
  (λ raw_header, (header_pair raw_header).1) <$> extra_headers.

(** All the assignments [build_headers] makes, in the order it makes
    them. *)
Definition header_entries (user_agent : string) (referer : option string)
    (extra_headers : list string) : list (string * string) :=
  [("User-Agent", user_agent)]
  ++ match truthy referer with Some r => [("Referer", r)] | None => [] end
  ++ (header_pair <$> extra_headers).

(** The value of the last entry for [name]. *)
Fixpoint last_value (name : string) (entries : list (string * string)) : option string :=
  match entries with
  | [] => None
  | (k, v) :: rest =>
      match last_value name rest with
      | Some v' => Some v'
      | None => if decide (k = name) then Some v else None
      end
  end.

(** A line of the URL file counts when its trimmed form is not blank and
    does not start with [#]. *)
Definition is_url_line (stripped : string) : Prop :=
  stripped ≠ "" ∧ startswith "#" stripped = false.

Global Instance is_url_line_dec (s : string) : Decision (is_url_line s).
Proof. unfold is_url_line. apply _. Defined.

(** [out] lists its elements in the order in which [input] shows them
    first: when [u] stands before [v] in [out], some occurrence of [u] in
    [input] has no [v] before it. *)
Definition first_seen_order (input out : list string) : Prop :=
  ∀ i j u v, out !! i = Some u → out !! j = Some v → i < j →
    ∃ k, input !! k = Some u ∧ v ∉ take (S k) input.

(** The value of the example header [attachment; filename="survey.sav"]. *)
Definition survey_disposition : string :=
  "attachment; filename=" +:+ dquote +:+ "survey.sav" +:+ dquote.

(** What [infer_filename] reads off the Content-Disposition value: the
    text behind the last [filename=], trimmed of white space and then of
    double quotes. *)
Definition disposition_token (content_disposition : string) : string :=
  strip_chars dquote (strip (last_part (split "filename=" content_disposition))).

(** The world right after the request of [download_file] went out. *)
Definition requested (url : string) (headers : gmap string string) (w : World) : World :=
  add_request url headers (add_log INFO (Downloading url) w).

(** The path [download_file] writes to for a response. *)
Definition destination (url output_dir : string) (response : Response) : string :=
  path_join output_dir (infer_filename url (dict_of_items (resp_headers response))).

(** ** Runs of the download loop *)

(** The calls of [download_file] made for a list of URLs, one after the
    other, with what each one gave: a call starts in the world that the
    call before it left, with its failure logged when it failed. *)
Inductive Attempts (env : Env) (output_dir : string) (headers : gmap string string)
    (timeout : Z) : World → list string → list (string * Result string) → World → Prop :=
  | Attempts_nil w :
      Attempts env output_dir headers timeout w [] [] w
  | Attempts_ok w url p w1 urls outcomes w2 :
      download_file env url output_dir headers timeout w = (Ok p, w1) →
      Attempts env output_dir headers timeout w1 urls outcomes w2 →
      Attempts env output_dir headers timeout w (url :: urls) ((url, Ok p) :: outcomes) w2
  | Attempts_failed w url e w1 urls outcomes w2 :
      download_file env url output_dir headers timeout w = (Raise e, w1) →
      Attempts env output_dir headers timeout
        (add_log ERROR (FailedToDownload url e) w1) urls outcomes w2 →
      Attempts env output_dir headers timeout w (url :: urls) ((url, Raise e) :: outcomes) w2.

(** The URLs whose call raised, in order. *)
Definition failed_urls (outcomes : list (string * Result string)) : list string :=
  omap (λ o, match o.2 with Raise _ => Some o.1 | Ok _ => None end) outcomes.

(** ** Example worlds *)

Definition zip_url : string := "https://example.org/files/data.zip".
Definition missing_url : string := "https://example.org/missing".
Definition empty_url : string := "https://example.org/empty".

(** A server that has one file, answers 404 for a second URL and sends
    nothing for a third; a URL file; two proposals for every temporary
    name. *)
Definition example_env : Env := {|
  http_get := λ _ url _ _,
    if decide (url = zip_url) then
      Responds {| status := 200; resp_headers := [("Content-Type", "application/zip")];
                  payload := Complete [Byte.x50; Byte.x4b; Byte.x03; Byte.x04] |}
    else if decide (url = missing_url) then
      Responds {| status := 404; resp_headers := []; payload := Complete [Byte.x3f] |}
    else if decide (url = empty_url) then
      Responds {| status := 200; resp_headers := []; payload := Complete [] |}
    else Fails (URLError "unreachable");
  temp_names := λ _, ["tmpk3x9_q2a"; "tmpw81hz0pd"];
  text_file := λ p,
    if decide (p = "urls.txt") then
      Some ("# ENDES" +:+ String (ascii_of_N 10) ""
            +:+ "  " +:+ zip_url +:+ " " +:+ String (ascii_of_N 13) (String (ascii_of_N 10) "")
            +:+ String (ascii_of_N 10) ""
            +:+ missing_url)
    else None
|}.

Definition empty_world : World :=
  {| files := ∅; requests := []; temps_made := 0; log := [] |}.


Definition example_args (urls : list string) (url_file : option string)
    (headers : list string) : Args :=
  {| args_url := urls; args_url_file := url_file; args_output_dir := "data/raw";
     args_user_agent := DEFAULT_USER_AGENT; args_referer := None;
     args_header := headers; args_timeout := 30 |}.

(** No proper suffix of [sep] is a prefix of [sep]: two occurrences of
    [sep] in a string never overlap. *)
Definition unbordered (sep : string) : Prop :=
  ∀ d, 0 < d → d < String.length sep → startswith (str_drop d sep) sep = false.

(** ** More example worlds *)

Definition broken_url : string := "https://example.org/broken".
Definition report_url : string := "https://example.org/get?id=7#top".
Definition lowercase_url : string := "https://example.org/files/table.csv".

(** A server whose stream breaks for one URL, that names an absolute
    path in a Content-Disposition header for a second, and that spells
    the header name in lower case for a third. *)
Definition second_env : Env := {|
  http_get := λ _ url _ _,
    if decide (url = broken_url) then
      Responds {| status := 200; resp_headers := [];
                  payload := Interrupted [Byte.x50; Byte.x4b] |}
    else if decide (url = report_url) then
      Responds {| status := 200;
                  resp_headers :=
                    [("Content-Disposition", "attachment; filename=first.csv");
                     ("Content-Disposition",
                      "attachment; filename=" +:+ dquote +:+ "/tmp/report.csv" +:+ dquote)];
                  payload := Complete [Byte.x61] |}
    else if decide (url = lowercase_url) then
      Responds {| status := 200;
                  resp_headers := [("content-disposition", survey_disposition)];
                  payload := Complete [Byte.x62] |}
    else Fails (URLError "unreachable");
  temp_names := λ _, ["tmpk3x9_q2a"; "tmpw81hz0pd"];
  text_file := λ _, None
|}.

(** ** Writing a URL file *)

(** The text of a file with one entry per line, each line ended by a line
    feed. *)
Fixpoint unlines (entries : list string) : string :=
  match entries with
  | [] => ""
  | entry :: rest => entry +:+ String (ascii_of_N 10) (unlines rest)
  end.

(** An entry that survives being written on a line of its own: it counts
    as a URL line, has no white space at its ends and no line break
    inside. *)
Definition plain_entry (u : string) : Prop :=
  is_url_line u ∧ trimmed isspace u
  ∧ char_in (ascii_of_N 10) u = false ∧ char_in (ascii_of_N 13) u = false.

(** An environment whose only readable file is [p], with text [text]. *)
Definition env_with_file (p text : string) : Env :=
  {| http_get := λ _ _ _ _, Fails (URLError "unreachable");
     temp_names := λ _, [];
     text_file := λ q, if decide (q = p) then Some text else None |}.

(** * Properties *)

(** ** Strings *)

Lemma app_cons (c : ascii) (s t : string) : String c s +:+ t = String c (s +:+ t).
Proof. reflexivity. Qed.

Lemma app_empty_l (s : string) : "" +:+ s = s.
Proof. reflexivity. Qed.

Lemma app_empty_r (s : string) : s +:+ "" = s.
Proof. induction s as [|c s IH]; [done|]. by rewrite app_cons, IH. Qed.

Lemma app_assoc_str (a b c : string) : a +:+ b +:+ c = (a +:+ b) +:+ c.
Proof. induction a as [|x a IH]; [done|]. by rewrite !app_cons, IH. Qed.

Lemma length_app_str (a b : string) :
  String.length (a +:+ b) = String.length a + String.length b.
Proof. induction a as [|x a IH]; [done|]. rewrite app_cons. simpl. by rewrite IH. Qed.

Lemma str_take_app (a b : string) : str_take (String.length a) (a +:+ b) = a.
Proof. induction a as [|x a IH]; [by destruct b|]. rewrite app_cons. simpl. by rewrite IH. Qed.

Lemma str_drop_app (a b : string) (k : nat) :
  str_drop (String.length a + k) (a +:+ b) = str_drop k b.
Proof. induction a as [|x a IH]; [done|]. rewrite app_cons. simpl. by rewrite IH. Qed.

Lemma str_take_drop (n : nat) (s : string) : str_take n s +:+ str_drop n s = s.
Proof.
  revert s. induction n as [|n IH]; intros [|c s]; simpl; try done.
  by rewrite app_cons, IH.
Qed.

Lemma startswith_app (p s : string) : startswith p (p +:+ s) = true.
Proof.
  induction p as [|c p IH]; [done|]. rewrite app_cons. simpl.
  by rewrite decide_True.
Qed.

Lemma startswith_spec (p s : string) :
  startswith p s = true ↔ ∃ t, s = p +:+ t.
Proof.
  split.
  - revert s. induction p as [|c p IH]; intros s H; [by exists s|].
    destruct s as [|d s]; [done|]. simpl in H. case_decide; [|done]. subst d.
    destruct (IH _ H) as [t ->]. by exists t.
  - intros [t ->]. apply startswith_app.
Qed.

(** *** [find] on a one-character pattern *)

Lemma find_char_None (c : ascii) (s : string) :
  find (String c "") s = None ↔ char_in c s = false.
Proof.
  induction s as [|d s IH]; [done|]. simpl.
  destruct (decide (c = d)); [done|].
  destruct (find (String c "") s); simpl; [|done].
  split; [done|]. intros H. apply IH in H. done.
Qed.

Lemma find_char_app (c : ascii) (n v : string) :
  char_in c n = false →
  find (String c "") (n +:+ String c v) = Some (String.length n).
Proof.
  induction n as [|a n IH]; intros H.
  - rewrite app_empty_l. simpl. by rewrite decide_True.
  - simpl in H. rewrite app_cons. simpl.
    destruct (decide (c = a)); [done|]. by rewrite IH.
Qed.

Lemma find_char_Some (c : ascii) (s : string) (i : nat) :
  find (String c "") s = Some i →
  s = str_take i s +:+ String c (str_drop (S i) s) ∧ char_in c (str_take i s) = false.
Proof.
  revert i. induction s as [|d s IH]; intros i; [done|]. simpl.
  destruct (decide (c = d)) as [->|Hne].
  - intros [= <-]. simpl. split; [|done]. by destruct s.
  - destruct (find (String c "") s) as [j|] eqn:Hj; [|done].
    intros [= <-]. destruct (IH j eq_refl) as [H1 H2].
    split; [|by simpl; rewrite decide_False].
    change (String d s = String d (str_take j s +:+ String c (str_drop (S j) s))).
    by f_equal.
Qed.

Lemma contains_char (c : ascii) (s : string) :
  contains (String c "") s = char_in c s.
Proof.
  unfold contains. destruct (char_in c s) eqn:H.
  - apply bool_decide_eq_true. destruct (find (String c "") s) eqn:Hf; [done|].
    apply find_char_None in Hf. congruence.
  - apply bool_decide_eq_false. apply find_char_None in H. rewrite H.
    by intros [? ?].
Qed.

Lemma split1_first (c : ascii) (n v : string) :
  char_in c n = false →
  split1 (String c "") (n +:+ String c v) = [n; v].
Proof.
  intros H. unfold split1. rewrite find_char_app by done.
  rewrite str_take_app. change (String.length (String c "")) with 1.
  by rewrite (str_drop_app n (String c v) 1).
Qed.

(** *** Trimming *)

Lemma lstrip_by_spec (p : ascii → bool) (s : string) :
  ∃ l, s = l +:+ lstrip_by p s ∧ str_forallb p l = true
       ∧ ∀ c, str_head (lstrip_by p s) = Some c → p c = false.
Proof.
  induction s as [|c s (l & Hs & Hl & Hh)].
  - exists "". done.
  - simpl. destruct (p c) eqn:Hc.
    + exists (String c l). rewrite app_cons, <- Hs. simpl. rewrite Hc. done.
    + exists "". split_and!; [done..|]. simpl. congruence.
Qed.

Lemma str_last_is_Some (c : ascii) (s : string) : is_Some (str_last (String c s)).
Proof.
  revert c. induction s as [|d s IH]; intros c; [by eexists|].
  change (str_last (String c (String d s))) with (str_last (String d s)). apply IH.
Qed.

Lemma str_last_cons (c : ascii) (s : string) :
  str_last (String c s) = match str_last s with Some d => Some d | None => Some c end.
Proof.
  destruct s as [|d s]; [done|].
  change (str_last (String c (String d s))) with (str_last (String d s)).
  by destruct (str_last_is_Some d s) as [x ->].
Qed.

Lemma str_last_None (s : string) : str_last s = None → s = "".
Proof.
  induction s as [|c s IH]; [done|]. rewrite str_last_cons.
  by destruct (str_last s).
Qed.

Lemma rstrip_by_spec (p : ascii → bool) (s : string) :
  ∃ r, s = rstrip_by p s +:+ r ∧ str_forallb p r = true
       ∧ ∀ c, str_last (rstrip_by p s) = Some c → p c = false.
Proof.
  induction s as [|c s (r & Hs & Hr & Hl)].
  - exists "". done.
  - simpl. destruct (rstrip_by p s) as [|d t] eqn:Ht.
    + rewrite app_empty_l in Hs. subst r. destruct (p c) eqn:Hc.
      * exists (String c s). simpl. rewrite Hc. done.
      * exists s. split_and!; [done..|]. simpl. congruence.
    + exists r. split_and!; [by rewrite app_cons, <- Hs|done|].
      intros c'. rewrite str_last_cons. intros H. apply Hl.
      destruct (str_last (String d t)) eqn:E; [done|].
      by apply str_last_None in E.
Qed.

Lemma str_last_lstrip (p : ascii → bool) (s : string) (c : ascii) :
  str_last (lstrip_by p s) = Some c → str_last s = Some c.
Proof.
  induction s as [|d s IH]; [done|]. cbn [lstrip_by]. destruct (p d); [|done].
  intros H. rewrite str_last_cons. by rewrite (IH H).
Qed.

(** Trimming removes a run of accepted characters at each end, and what
    is left has none at either end. *)
Lemma strip_by_spec (p : ascii → bool) (s : string) :
  ∃ l r, s = l +:+ strip_by p s +:+ r
         ∧ str_forallb p l = true ∧ str_forallb p r = true
         ∧ trimmed p (strip_by p s).
Proof.
  destruct (rstrip_by_spec p s) as (r & Hs & Hr & Hlast).
  destruct (lstrip_by_spec p (rstrip_by p s)) as (l & Hs' & Hl & Hhead).
  exists l, r. unfold strip_by. split_and!; [|done..|].
  - rewrite app_assoc_str, <- Hs'. done.
  - split; [done|]. intros c H. apply Hlast. by apply str_last_lstrip in H.
Qed.

Lemma strip_spec (s : string) :
  ∃ l r, s = l +:+ strip s +:+ r
         ∧ str_forallb isspace l = true ∧ str_forallb isspace r = true
         ∧ trimmed isspace (strip s).
Proof. apply strip_by_spec. Qed.

(** ** build_headers *)

Lemma contains_find (sub s : string) :
  contains sub s = true ↔ ∃ i, find sub s = Some i.
Proof. unfold contains. rewrite bool_decide_eq_true. done. Qed.

Lemma add_header_Ok (headers : gmap string string) (raw_header : string) :
  contains ":" raw_header = true →
  add_header headers raw_header
  = Ok (<[(header_pair raw_header).1 := (header_pair raw_header).2]> headers).
Proof.
  intros H. unfold add_header, header_pair, split1, cut_at. rewrite H. simpl.
  apply contains_find in H as [i ->]. done.
Qed.

Lemma add_header_Raise (headers : gmap string string) (raw_header : string) :
  contains ":" raw_header = false →
  add_header headers raw_header = Raise (DownloadError (InvalidHeaderFormat raw_header)).
Proof. intros H. unfold add_header. by rewrite H. Qed.

Lemma add_headers_Ok (extra_headers : list string) (headers : gmap string string) :
  Forall (λ raw_header, contains ":" raw_header = true) extra_headers →
  add_headers headers extra_headers
  = Ok (foldl assign headers (header_pair <$> extra_headers)).
Proof.
  intros H. revert headers. induction H as [|raw rest Hraw _ IH]; intros headers; [done|].
  simpl. rewrite add_header_Ok by done. apply IH.
Qed.

(** The first malformed entry stops the loop, whatever follows it. *)
Lemma add_headers_Raise (good : list string) (bad : string) (rest : list string)
    (headers : gmap string string) :
  Forall (λ raw_header, contains ":" raw_header = true) good →
  contains ":" bad = false →
  add_headers headers (good ++ bad :: rest)
  = Raise (DownloadError (InvalidHeaderFormat bad)).
Proof.
  intros H Hbad. revert headers. induction H as [|raw good' Hraw _ IH]; intros headers.
  - simpl. by rewrite add_header_Raise.
  - simpl. rewrite add_header_Ok by done. apply IH.
Qed.

Lemma add_headers_inv (extra_headers : list string) (headers m : gmap string string) :
  add_headers headers extra_headers = Ok m →
  Forall (λ raw_header, contains ":" raw_header = true) extra_headers.
Proof.
  revert headers. induction extra_headers as [|raw rest IH]; intros headers H; [done|].
  simpl in H. destruct (contains ":" raw) eqn:Hraw.
  - rewrite add_header_Ok in H by done. constructor; [done|]. by eapply IH.
  - by rewrite add_header_Raise in H.
Qed.

Lemma foldl_assign_lookup (entries : list (string * string)) (d : gmap string string)
    (name : string) :
  foldl assign d entries !! name
  = match last_value name entries with Some v => Some v | None => d !! name end.
Proof.
  revert d. induction entries as [|[k v] rest IH]; intros d; [done|].
  simpl. rewrite IH. destruct (last_value name rest); [done|].
  unfold assign. simpl. rewrite lookup_insert. by destruct (decide (k = name)).
Qed.

Lemma last_value_app (name : string) (l1 l2 : list (string * string)) :
  last_value name (l1 ++ l2)
  = match last_value name l2 with Some v => Some v | None => last_value name l1 end.
Proof.
  induction l1 as [|[k v] l1 IH]; simpl; [by destruct (last_value name l2)|].
  rewrite IH. by destruct (last_value name l2).
Qed.

Lemma last_value_None (name : string) (entries : list (string * string)) :
  last_value name entries = None ↔ name ∉ entries.*1.
Proof.
  induction entries as [|[k v] rest IH]; simpl.
  - split; [|done]. intros _. apply not_elem_of_nil.
  - rewrite not_elem_of_cons. destruct (last_value name rest).
    + split; [done|]. intros [_ H]. by apply IH in H.
    + destruct (decide (k = name)) as [->|]; split; try done.
      * by intros [? _].
      * intros _. split; [done|]. by apply IH.
Qed.

Lemma build_headers_Ok (user_agent : string) (referer : option string)
    (extra_headers : list string) :
  Forall (λ raw_header, contains ":" raw_header = true) extra_headers →
  build_headers user_agent referer extra_headers
  = Ok (foldl assign ∅ (header_entries user_agent referer extra_headers)).
Proof.
  intros H. unfold build_headers, header_entries. rewrite add_headers_Ok by done.
  f_equal. rewrite !foldl_app. simpl. by destruct (truthy referer).
Qed.

Lemma build_headers_lookup (user_agent : string) (referer : option string)
    (extra_headers : list string) (m : gmap string string) (name : string) :
  build_headers user_agent referer extra_headers = Ok m →
  m !! name = last_value name (header_entries user_agent referer extra_headers).
Proof.
  intros H. assert (Hwf := H). apply add_headers_inv in Hwf.
  rewrite build_headers_Ok in H by done.
  assert (m = foldl assign ∅ (header_entries user_agent referer extra_headers)) as ->
    by congruence.
  rewrite (foldl_assign_lookup (header_entries user_agent referer extra_headers) ∅ name).
  destruct (last_value name (header_entries user_agent referer extra_headers)); [done|].
  apply lookup_empty.
Qed.

Lemma header_pair_first_colon (name value : string) :
  char_in ":" name = false →
  header_pair (name +:+ ":" +:+ value) = (strip name, strip value).
Proof.
  intros H. unfold header_pair, cut_at.
  change (":" +:+ value) with (String ":" value).
  rewrite (find_char_app ":" name value H), str_take_app.
  change (String.length ":") with 1.
  by rewrite (str_drop_app name (String ":" value) 1).
Qed.

Lemma header_split (raw_header : string) :
  contains ":" raw_header = true →
  ∃ name value, raw_header = name +:+ ":" +:+ value ∧ char_in ":" name = false.
Proof.
  intros H. apply contains_find in H as [i Hi].
  apply (find_char_Some ":") in Hi as [H1 H2].
  exists (str_take i raw_header), (str_drop (S i) raw_header). done.
Qed.

Lemma last_value_extra (user_agent : string) (referer : option string)
    (extra_headers : list string) (name : string) :
  last_value name (header_entries user_agent referer extra_headers)
  = match last_value name (header_pair <$> extra_headers) with
    | Some v => Some v
    | None =>
        match last_value name
                match truthy referer with Some r => [("Referer", r)] | None => [] end with
        | Some v => Some v
        | None => if decide ("User-Agent" = name) then Some user_agent else None
        end
    end.
Proof.
  unfold header_entries. rewrite !last_value_app.
  destruct (last_value name (header_pair <$> extra_headers)); [done|].
  by destruct (last_value name _).
Qed.

Lemma last_value_last (name v : string) (before after : list (string * string)) :
  name ∉ after.*1 → last_value name (before ++ (name, v) :: after) = Some v.
Proof.
  intros H. rewrite last_value_app. simpl.
  apply last_value_None in H. rewrite H. by rewrite decide_True.
Qed.

Lemma build_headers_last_entry (user_agent : string) (referer : option string)
    (before : list string) (raw_header : string) (after : list string)
    (m : gmap string string) :
  build_headers user_agent referer (before ++ raw_header :: after) = Ok m →
  (header_pair raw_header).1 ∉ header_names after →
  m !! (header_pair raw_header).1 = Some (header_pair raw_header).2.
Proof.
  intros H Hafter. rewrite (build_headers_lookup _ _ _ _ _ H), last_value_extra.
  rewrite fmap_app, fmap_cons. destruct (header_pair raw_header) as [k v]. simpl in *.
  rewrite last_value_last; [done|].
  unfold header_names in Hafter. by rewrite <- list_fmap_compose.
Qed.

(** C10: when a trimmed header name is assigned more than once, by the
    default User-Agent, the optional Referer or the extra entries, the
    map returned by [build_headers] holds the value of the last
    assignment; so an extra entry named User-Agent or Referer replaces
    the default or optional value. *)
Theorem build_headers_last_wins (user_agent : string) (referer : option string)
    (extra_headers : list string) (m : gmap string string) :
  build_headers user_agent referer extra_headers = Ok m →
  (∀ name, m !! name = last_value name (header_entries user_agent referer extra_headers))
  ∧ (∀ name v, last_value name (header_pair <$> extra_headers) = Some v →
               m !! name = Some v)
  ∧ (∀ before raw_header after,
       extra_headers = before ++ raw_header :: after →
       (header_pair raw_header).1 ∉ header_names after →
       m !! (header_pair raw_header).1 = Some (header_pair raw_header).2).
Proof.
  intros H. split_and!.
  - intros name. by apply build_headers_lookup.
  - intros name v Hv. rewrite (build_headers_lookup _ _ _ _ _ H), last_value_extra.
    by rewrite Hv.
  - intros before raw after -> Hafter. by eapply build_headers_last_entry.
Qed.

Lemma build_headers_last_wins_witness :
  ∃ m, build_headers "agent" (Some "https://a.example/")
         ["User-Agent: first"; "Referer:other"; "User-Agent : second "] = Ok m
       ∧ m !! "User-Agent" = Some "second" ∧ m !! "Referer" = Some "other".
Proof.
  eexists. split; [vm_compute; reflexivity|].
  match goal with
  | |- ?m !! _ = _ ∧ _ =>
      destruct (build_headers_last_wins "agent" (Some "https://a.example/")
        ["User-Agent: first"; "Referer:other"; "User-Agent : second "] m) as (_ & Hv & _);
        [vm_compute; reflexivity|]
  end.
  split; apply Hv; vm_compute; reflexivity.
Defined.

(** C7 as stated fails: an extra entry named User-Agent takes the place
    of the given User-Agent. *)
Lemma build_headers_given_user_agent_counterexample :
  ¬ (∀ user_agent referer extra_headers m,
       Forall (λ raw_header, contains ":" raw_header = true) extra_headers →
       build_headers user_agent referer extra_headers = Ok m →
       m !! "User-Agent" = Some user_agent
       ∧ (is_Some (m !! "Referer") ↔ is_Some referer)).
Proof.
  intros H.
  destruct (H "agent" None ["User-Agent: other"] {["User-Agent" := "other"]}) as [H1 _].
  - repeat constructor.
  - vm_compute. reflexivity.
  - vm_compute in H1. discriminate.
Qed.

(** C7, amended: for well-formed extra entries [build_headers] returns a
    map; every entry is cut at its first colon only and both parts are
    trimmed; the map always has a User-Agent, which is the given one
    unless an extra entry is named User-Agent; and unless an extra entry
    is named Referer, it has a Referer exactly when a non-empty referer
    was given, and then that one. *)
Theorem build_headers_well_formed (user_agent : string) (referer : option string)
    (extra_headers : list string) :
  Forall (λ raw_header, contains ":" raw_header = true) extra_headers →
  ∃ m, build_headers user_agent referer extra_headers = Ok m
    ∧ (∀ raw_header, raw_header ∈ extra_headers →
         ∃ name value, raw_header = name +:+ ":" +:+ value ∧ char_in ":" name = false)
    ∧ (∀ before name value after,
         extra_headers = before ++ (name +:+ ":" +:+ value) :: after →
         char_in ":" name = false →
         trimmed isspace (strip name) ∧ trimmed isspace (strip value)
         ∧ is_Some (m !! strip name)
         ∧ (strip name ∉ header_names after → m !! strip name = Some (strip value)))
    ∧ is_Some (m !! "User-Agent")
    ∧ ("User-Agent" ∉ header_names extra_headers → m !! "User-Agent" = Some user_agent)
    ∧ ("Referer" ∉ header_names extra_headers → m !! "Referer" = truthy referer).
Proof.
  intros Hwf. rewrite build_headers_Ok by done. eexists. split; [done|].
  pose proof (build_headers_Ok user_agent referer extra_headers Hwf) as Hm.
  set (m := foldl assign ∅ (header_entries user_agent referer extra_headers)) in *.
  assert (Hlook := λ name, build_headers_lookup _ _ _ _ name Hm).
  split_and!.
  - intros raw Hraw. apply header_split. by eapply Forall_forall in Hwf.
  - intros before name value after -> Hname.
    pose proof (header_pair_first_colon name value Hname) as Hp.
    destruct (strip_spec name) as (? & ? & _ & _ & _ & Hn).
    destruct (strip_spec value) as (? & ? & _ & _ & _ & Hv).
    split_and!; [done..| |].
    + rewrite Hlook, last_value_extra, fmap_app, fmap_cons, Hp, last_value_app. simpl.
      destruct (last_value (strip name) (header_pair <$> after)); [done|].
      by rewrite decide_True.
    + intros Hafter.
      pose proof (build_headers_last_entry _ _ _ _ _ _ Hm) as Hlast.
      rewrite Hp in Hlast. by apply Hlast.
  - rewrite Hlook, last_value_extra.
    destruct (last_value "User-Agent" (header_pair <$> extra_headers)); [done|].
    by destruct (truthy referer).
  - intros Hno. rewrite Hlook, last_value_extra.
    unfold header_names in Hno. rewrite (list_fmap_compose header_pair fst) in Hno.
    apply last_value_None in Hno. rewrite Hno. by destruct (truthy referer).
  - intros Hno. rewrite Hlook, last_value_extra.
    unfold header_names in Hno. rewrite (list_fmap_compose header_pair fst) in Hno.
    apply last_value_None in Hno. rewrite Hno. by destruct (truthy referer).
Qed.

Lemma build_headers_well_formed_witness :
  Forall (λ raw_header, contains ":" raw_header = true) ["Accept: text/html"; "X-Time: 12:30 "]
  ∧ ∃ m, build_headers DEFAULT_USER_AGENT (Some "https://a.example/")
           ["Accept: text/html"; "X-Time: 12:30 "] = Ok m
         ∧ m !! "X-Time" = Some "12:30"
         ∧ m !! "User-Agent" = Some DEFAULT_USER_AGENT
         ∧ m !! "Referer" = Some "https://a.example/".
Proof.
  assert (Hwf : Forall (λ raw_header, contains ":" raw_header = true)
                  ["Accept: text/html"; "X-Time: 12:30 "])
    by (repeat constructor).
  split; [exact Hwf|].
  destruct (build_headers_well_formed DEFAULT_USER_AGENT (Some "https://a.example/")
              ["Accept: text/html"; "X-Time: 12:30 "] Hwf)
    as (m & Hm & _ & Hentry & _ & Hua & Href).
  exists m. split; [exact Hm|]. split_and!.
  - destruct (Hentry ["Accept: text/html"] "X-Time" " 12:30 " [] eq_refl eq_refl)
      as (_ & _ & _ & Hx).
    apply Hx. vm_compute. by intros ?%elem_of_nil.
  - apply Hua. vm_compute. intros H. repeat (apply elem_of_cons in H as [H|H]; [discriminate|]).
    by apply elem_of_nil in H.
  - apply Href. vm_compute. intros H. repeat (apply elem_of_cons in H as [H|H]; [discriminate|]).
    by apply elem_of_nil in H.
Defined.

(** ** read_url_file *)

Lemma url_line_cases (urls : list string) (line : string) :
  url_line urls line
  = if decide (is_url_line (strip line)) then urls ++ [strip line] else urls.
Proof.
  unfold url_line.
  destruct (decide (is_url_line (strip line))) as [[Hne Hs]|Hno].
  - by rewrite bool_decide_eq_false_2, Hs by done.
  - destruct (decide (strip line = "")) as [He|Hne].
    + by rewrite bool_decide_eq_true_2 by done.
    + rewrite bool_decide_eq_false_2 by done.
      destruct (startswith "#" (strip line)) eqn:Hs; [done|].
      exfalso. by apply Hno.
Qed.

Lemma foldl_url_line (lines urls : list string) :
  foldl url_line urls lines = urls ++ filter is_url_line (strip <$> lines).
Proof.
  revert urls. induction lines as [|line lines IH]; intros urls.
  - simpl. by rewrite app_nil_r.
  - rewrite fmap_cons, filter_cons.
    change (foldl url_line urls (line :: lines))
      with (foldl url_line (url_line urls line) lines).
    rewrite IH, url_line_cases.
    destruct (decide (is_url_line (strip line))); [|done].
    by rewrite <- app_assoc.
Qed.

(** C9: the URLs read from a URL file are the trimmed lines of the file,
    in file order, without the lines that are blank or start with [#]
    once trimmed. *)
Theorem read_url_file_lines (env : Env) (p text : string) :
  p ≠ "" → text_file env p = Some text →
  ∃ urls, read_url_file env (Some p) = Ok urls
    ∧ urls = filter is_url_line (strip <$> readlines text)
    ∧ (∀ u, u ∈ urls →
         trimmed isspace u ∧ u ≠ "" ∧ startswith "#" u = false
         ∧ ∃ line, line ∈ readlines text ∧ u = strip line)
    ∧ (∀ line, line ∈ readlines text →
         strip line ≠ "" → startswith "#" (strip line) = false → strip line ∈ urls)
    ∧ urls `sublist_of` (strip <$> readlines text).
Proof.
  intros Hp Htext. unfold read_url_file. simpl. rewrite decide_False by done.
  rewrite Htext. eexists. split; [done|]. rewrite foldl_url_line. simpl.
  split_and!; [done| | |].
  - intros u [[Hne Hsharp] Hin]%list_elem_of_filter.
    apply list_elem_of_fmap in Hin as (line & -> & Hline).
    destruct (strip_spec line) as (? & ? & _ & _ & _ & Ht).
    split_and!; [done..|]. by exists line.
  - intros line Hline Hne Hsharp. apply list_elem_of_filter. split; [done|].
    apply list_elem_of_fmap. by exists line.
  - apply sublist_filter.
Qed.

Lemma read_url_file_lines_witness :
  read_url_file example_env (Some "urls.txt") = Ok [zip_url; missing_url].
Proof.
  edestruct (read_url_file_lines example_env "urls.txt") as (urls & Hread & Hurls & _).
  - done.
  - vm_compute. reflexivity.
  - rewrite Hread, Hurls. vm_compute. reflexivity.
Defined.

(** ** collect_urls *)

Lemma foldl_snoc {A B} (f : A → B → A) (a : A) (l : list B) (x : B) :
  foldl f a (l ++ [x]) = f (foldl f a l) x.
Proof. by rewrite foldl_app. Qed.

(** What the loop of [collect_urls] maintains: [seen] holds the elements
    of [unique_urls], which has no duplicate, holds the URLs met so far
    and lists them as first seen. *)
Lemma keep_first_invariant (urls : list string) :
  let acc := foldl keep_first ([], ∅) urls in
  (∀ x, x ∈ acc.2 ↔ x ∈ acc.1)
  ∧ NoDup acc.1
  ∧ (∀ x, x ∈ acc.1 ↔ x ∈ urls)
  ∧ first_seen_order urls acc.1.
Proof.
  induction urls as [|x urls IH] using rev_ind; simpl.
  - split_and!; [set_solver| constructor | done |]. by intros i j u v ?.
  - rewrite foldl_snoc. destruct IH as (Hseen & Hnd & Hmem & Hord).
    destruct (foldl keep_first ([], ∅) urls) as [unique seen]. simpl in *.
    unfold keep_first. simpl. destruct (decide (x ∈ seen)) as [Hx|Hx]; simpl.
    + split_and!; [done..| |].
      * intros y. rewrite Hmem, elem_of_app, list_elem_of_singleton.
        split; [tauto|]. intros [?| ->]; [done|]. by apply Hmem, Hseen.
      * intros i j u v Hi Hj Hij. destruct (Hord i j u v Hi Hj Hij) as (k & Hk & Hv).
        pose proof (lookup_lt_Some _ _ _ Hk) as Hlt.
        exists k. split; [by rewrite lookup_app_l|].
        by rewrite take_app_le by lia.
    + assert (x ∉ urls) as Hnew by (by rewrite <- Hmem, <- Hseen).
      split_and!.
      * intros y. rewrite elem_of_union, elem_of_singleton, elem_of_app,
          list_elem_of_singleton, Hseen. tauto.
      * apply NoDup_app. split_and!; [done| |apply NoDup_singleton].
        intros y Hy ->%list_elem_of_singleton. by apply Hx, Hseen.
      * intros y. rewrite !elem_of_app, !list_elem_of_singleton, Hmem. done.
      * intros i j u v Hi Hj Hij.
        destruct (decide (j < length unique)) as [Hj'|Hj'].
        -- rewrite lookup_app_l in Hi, Hj by lia.
           destruct (Hord i j u v Hi Hj Hij) as (k & Hk & Hv).
           pose proof (lookup_lt_Some _ _ _ Hk) as Hlt.
           exists k. split; [by rewrite lookup_app_l|].
           by rewrite take_app_le by lia.
        -- pose proof (lookup_lt_Some _ _ _ Hj) as Hjlt.
           rewrite length_app in Hjlt. simpl in Hjlt.
           assert (j = length unique) as -> by lia.
           rewrite lookup_app_l in Hi by lia.
           rewrite list_lookup_middle in Hj by done. injection Hj as <-.
           assert (u ∈ urls) as Hu by (apply Hmem; by eapply list_elem_of_lookup_2).
           apply list_elem_of_lookup in Hu as [k Hk].
           pose proof (lookup_lt_Some _ _ _ Hk) as Hlt.
           exists k. split; [by rewrite lookup_app_l|].
           rewrite take_app_le by lia. intros Hin. apply Hnew.
           by apply (subseteq_take (S k) urls).
Qed.

(** The loop only ever appends to [unique_urls]. *)
Lemma keep_first_extends (urls : list string) (acc : list string * gset string) :
  ∃ tail, (foldl keep_first acc urls).1 = acc.1 ++ tail.
Proof.
  revert acc. induction urls as [|x urls IH]; intros acc; simpl.
  - exists []. by rewrite app_nil_r.
  - destruct (IH (keep_first acc x)) as [tail ->].
    unfold keep_first. destruct (decide (x ∈ acc.2)); simpl.
    + by exists tail.
    + exists (x :: tail). by rewrite <- app_assoc.
Qed.

Lemma unique_in_order_app (direct from_file : list string) :
  ∃ tail, unique_in_order (direct ++ from_file) = unique_in_order direct ++ tail
          ∧ ∀ u, u ∈ tail → u ∈ from_file ∧ u ∉ direct.
Proof.
  unfold unique_in_order. rewrite foldl_app.
  destruct (keep_first_extends from_file (foldl keep_first ([], ∅) direct)) as [tail Ht].
  exists tail. split; [done|]. intros u Hu.
  destruct (keep_first_invariant (direct ++ from_file)) as (_ & Hnd & Hmem & _).
  destruct (keep_first_invariant direct) as (_ & _ & Hmem' & _).
  simpl in *. rewrite foldl_app, Ht in Hnd, Hmem.
  apply NoDup_app in Hnd as (_ & Hdisj & _).
  assert (u ∉ direct) as Hnot.
  { intros Hd. apply Hmem' in Hd. by apply (Hdisj u). }
  split; [|done].
  assert (u ∈ direct ++ from_file) as Hin by (apply Hmem, elem_of_app; by right).
  apply elem_of_app in Hin as [?|?]; done.
Qed.

(** C8: [collect_urls] returns the direct URLs followed by the URLs of
    the URL file, each distinct URL once, in the order in which they are
    first seen. *)
Theorem collect_urls_unique (env : Env) (args : Args) (from_file : list string) :
  read_url_file env (args_url_file args) = Ok from_file →
  ∃ urls, collect_urls env args = Ok urls
    ∧ NoDup urls
    ∧ (∀ u, u ∈ urls ↔ u ∈ args_url args ∨ u ∈ from_file)
    ∧ first_seen_order (args_url args ++ from_file) urls
    ∧ ∃ tail, urls = unique_in_order (args_url args) ++ tail
              ∧ ∀ u, u ∈ tail → u ∈ from_file ∧ u ∉ args_url args.
Proof.
  intros Hfile. unfold collect_urls. rewrite Hfile. eexists. split; [done|].
  destruct (keep_first_invariant (args_url args ++ from_file)) as (_ & Hnd & Hmem & Hord).
  split_and!; [done| |done|apply unique_in_order_app].
  intros u. unfold unique_in_order. rewrite Hmem. apply elem_of_app.
Qed.

Lemma collect_urls_unique_witness :
  ∃ urls, collect_urls example_env
            (example_args [zip_url; empty_url; zip_url] (Some "urls.txt") []) = Ok urls
          ∧ urls = [zip_url; empty_url; missing_url]
          ∧ NoDup urls.
Proof.
  destruct (collect_urls_unique example_env
              (example_args [zip_url; empty_url; zip_url] (Some "urls.txt") [])
              [zip_url; missing_url])
    as (urls & Hcollect & Hnd & _); [vm_compute; reflexivity|].
  exists urls. split_and!; [done| |done].
  vm_compute in Hcollect. by injection Hcollect as <-.
Defined.

(** ** [split] and the text behind the last separator *)

Lemma length_str_drop (n : nat) (s : string) :
  String.length (str_drop n s) = String.length s - n.
Proof. revert s. induction n as [|n IH]; intros [|c s]; simpl; auto with lia. Qed.

Lemma str_drop_app_le (n : nat) (a b : string) :
  n ≤ String.length a → str_drop n (a +:+ b) = str_drop n a +:+ b.
Proof.
  revert a. induction n as [|n IH]; intros [|c a] H; cbn [String.length] in H.
  - by destruct b.
  - done.
  - lia.
  - rewrite app_cons. cbn [str_drop]. apply IH. lia.
Qed.

Lemma str_drop_drop (n m : nat) (s : string) :
  str_drop n (str_drop m s) = str_drop (m + n) s.
Proof.
  revert s. induction m as [|m IH]; intros s; [done|].
  destruct s as [|c s]; simpl; [by destruct n|]. apply IH.
Qed.

Lemma app_startswith (a b r1 r2 : string) :
  a +:+ r1 = b +:+ r2 → String.length a ≤ String.length b → startswith a b = true.
Proof.
  revert b. induction a as [|c a IH]; intros b Heq Hlen; [done|].
  destruct b as [|d b]; simpl in Hlen; [lia|].
  rewrite !app_cons in Heq. injection Heq as -> Heq. simpl.
  rewrite decide_True by done. apply (IH b); [done|lia].
Qed.

Lemma find_Some_startswith (sub s : string) (i : nat) :
  find sub s = Some i → startswith sub (str_drop i s) = true ∧ i ≤ String.length s.
Proof.
  revert i. induction s as [|c s IH]; intros i; cbn [find].
  - destruct (startswith sub "") eqn:E; [|done]. intros [= <-]. split; [done|lia].
  - destruct (startswith sub (String c s)) eqn:E.
    + intros [= <-]. split; [done|lia].
    + destruct (find sub s) as [j|]; [|done]. intros [= <-].
      destruct (IH j eq_refl). split; [done|simpl; lia].
Qed.

Lemma find_first (sub s : string) (k : nat) :
  startswith sub (str_drop k s) = true → ∃ i, find sub s = Some i ∧ i ≤ k.
Proof.
  revert k. induction s as [|c s IH]; intros k H; cbn [find].
  - assert (str_drop k "" = "") as Hk by (by destruct k). rewrite Hk in H.
    rewrite H. exists 0. split; [done|lia].
  - destruct (startswith sub (String c s)) eqn:E; [exists 0; split; [done|lia]|].
    destruct k as [|k]; [simpl in H; congruence|]. simpl in H.
    destruct (IH k H) as (i & -> & Hi). exists (S i). split; [done|lia].
Qed.

Lemma contains_false (sub s : string) : contains sub s = false ↔ find sub s = None.
Proof.
  unfold contains. rewrite bool_decide_eq_false.
  destruct (find sub s); split; try done.
  intros H. exfalso. apply H. by eexists.
Qed.

Lemma split_fuel_nonempty (fuel : nat) (sep s : string) : split_fuel fuel sep s ≠ [].
Proof. destruct fuel; simpl; [done|]. by destruct (find sep s). Qed.

Lemma last_part_cons (x : string) (l : list string) :
  l ≠ [] → last_part (x :: l) = last_part l.
Proof. by destruct l. Qed.

(** The fuel that [split] gives is enough: more changes nothing. *)
Lemma split_fuel_enough (sep : string) (n m : nat) (s : string) :
  sep ≠ "" → String.length s ≤ n → String.length s ≤ m →
  split_fuel n sep s = split_fuel m sep s.
Proof.
  intros Hsep. revert m s. induction n as [|n IH]; intros m s Hn Hm.
  - destruct s; [|simpl in Hn; lia]. destruct m; [done|]. simpl.
    by destruct sep.
  - destruct m as [|m].
    + destruct s; [|simpl in Hm; lia]. simpl. by destruct sep.
    + simpl. destruct (find sep s) as [i|] eqn:Hi; [|done]. f_equal.
      assert (0 < String.length sep) by (destruct sep; [done|simpl; lia]).
      apply IH; rewrite length_str_drop; lia.
Qed.

Lemma split_fuel_more (sep s : string) (n : nat) :
  sep ≠ "" → String.length s ≤ n → split_fuel n sep s = split sep s.
Proof. intros. by apply split_fuel_enough. Qed.

Lemma last_split_fuel (sep t : string) (fuel : nat) (pre : string) :
  sep ≠ "" → unbordered sep → find sep t = None →
  String.length (pre +:+ sep +:+ t) ≤ fuel →
  last_part (split_fuel fuel sep (pre +:+ sep +:+ t)) = t.
Proof.
  intros Hsep Hunb Ht.
  assert (0 < String.length sep) as Hpos by (destruct sep; [done|simpl; lia]).
  revert pre. induction fuel as [|fuel IH]; intros pre Hlen.
  { rewrite !length_app_str in Hlen. lia. }
  assert (startswith sep (str_drop (String.length pre) (pre +:+ sep +:+ t)) = true) as Hocc.
  { rewrite <- (Nat.add_0_r (String.length pre)), str_drop_app. apply startswith_app. }
  destruct (find_first _ _ _ Hocc) as (i & Hi & Hle).
  cbn [split_fuel]. rewrite Hi.
  rewrite last_part_cons by apply split_fuel_nonempty.
  destruct (decide (i = String.length pre)) as [->|Hne].
  - rewrite app_assoc_str, <- length_app_str, <- (Nat.add_0_r (String.length _)), str_drop_app.
    simpl. destruct fuel; simpl; [done|]. by rewrite Ht.
  - destruct (find_Some_startswith _ _ _ Hi) as [Hstart _].
    apply startswith_spec in Hstart as [r1 Hr1].
    assert (String.length sep ≤ String.length pre - i) as Hfar.
    { destruct (decide (String.length sep ≤ String.length pre - i)) as [?|Hnear]; [done|].
      exfalso.
      assert (str_drop (String.length pre - i) (str_drop i (pre +:+ sep +:+ t))
              = sep +:+ t) as Hsecond.
      { rewrite str_drop_drop.
        replace (i + (String.length pre - i)) with (String.length pre + 0) by lia.
        by rewrite str_drop_app. }
      rewrite Hr1, str_drop_app_le in Hsecond by lia.
      apply app_startswith in Hsecond; [|rewrite length_str_drop; lia].
      rewrite Hunb in Hsecond by lia. done. }
    rewrite str_drop_app_le by lia. apply IH.
    rewrite !length_app_str, length_str_drop. rewrite !length_app_str in Hlen. lia.
Qed.

(** Behind the last separator: when [t] holds no separator, the last part
    of [pre + sep + t] is [t], whatever [pre] holds. *)
Lemma last_split (sep pre t : string) :
  sep ≠ "" → unbordered sep → contains sep t = false →
  last_part (split sep (pre +:+ sep +:+ t)) = t.
Proof.
  intros Hsep Hunb Ht. apply contains_false in Ht.
  unfold split. by apply last_split_fuel.
Qed.

Lemma contains_app (sep pre t : string) : contains sep (pre +:+ sep +:+ t) = true.
Proof.
  apply contains_find.
  destruct (find_first sep (pre +:+ sep +:+ t) (String.length pre)) as (i & Hi & _).
  - rewrite <- (Nat.add_0_r (String.length pre)), str_drop_app. apply startswith_app.
  - by exists i.
Qed.

Lemma filename_unbordered : unbordered "filename=".
Proof.
  intros d Hpos Hlt. simpl in Hlt.
  do 9 (destruct d as [|d]; [done || lia|]). lia.
Qed.

(** *** Trimming what is already trimmed *)

Lemma lstrip_by_id (p : ascii → bool) (s : string) :
  (∀ c, str_head s = Some c → p c = false) → lstrip_by p s = s.
Proof. destruct s as [|c s]; [done|]. intros H. simpl. by rewrite (H c). Qed.

Lemma rstrip_by_id (p : ascii → bool) (s : string) :
  (∀ c, str_last s = Some c → p c = false) → rstrip_by p s = s.
Proof.
  induction s as [|c s IH]; [done|]. intros H. cbn [rstrip_by].
  destruct s as [|d s].
  - simpl. by rewrite (H c).
  - rewrite IH; [done|]. intros c' Hc'. apply H.
    rewrite str_last_cons. by rewrite Hc'.
Qed.

Lemma rstrip_by_all (p : ascii → bool) (s : string) :
  str_forallb p s = true → rstrip_by p s = "".
Proof.
  induction s as [|c s IH]; [done|]. simpl. intros [Hc Hs]%andb_true_iff.
  by rewrite IH, Hc.
Qed.

Lemma rstrip_by_app (p : ascii → bool) (a b : string) :
  str_forallb p b = true → rstrip_by p (a +:+ b) = rstrip_by p a.
Proof.
  intros Hb. induction a as [|c a IH].
  - rewrite app_empty_l. by apply rstrip_by_all.
  - rewrite app_cons. cbn [rstrip_by]. by rewrite IH.
Qed.

Lemma str_last_app (a : string) (c : ascii) (b : string) :
  str_last (a +:+ String c b) = str_last (String c b).
Proof.
  induction a as [|x a IH]; [done|]. rewrite app_cons, str_last_cons, IH.
  by destruct (str_last_is_Some c b) as [y ->].
Qed.

(** A quoted name: trimming white space leaves the quotes, trimming
    quotes leaves the name. *)
Lemma unquote (name : string) :
  name ≠ "" → trimmed (λ c, char_in c dquote) name →
  strip_chars dquote (strip (dquote +:+ name +:+ dquote)) = name.
Proof.
  intros Hne [Hhead Hlast].
  assert (strip (dquote +:+ name +:+ dquote) = dquote +:+ name +:+ dquote) as ->.
  { unfold strip, strip_by. rewrite rstrip_by_id.
    - apply lstrip_by_id. intros c [= <-]. done.
    - intros c. change (dquote +:+ name +:+ dquote)
        with (String (ascii_of_N 34) (name +:+ dquote)).
      rewrite str_last_cons. unfold dquote. rewrite str_last_app. intros [= <-]. done. }
  unfold strip_chars, strip_by. rewrite app_assoc_str, rstrip_by_app by done.
  rewrite rstrip_by_id.
  - change (dquote +:+ name) with (String (ascii_of_N 34) name). simpl.
    by apply lstrip_by_id.
  - intros c. change (dquote +:+ name) with (String (ascii_of_N 34) name).
    rewrite str_last_cons. destruct (str_last name) as [y|] eqn:Hy.
    + intros [= <-]. by apply Hlast.
    + by apply str_last_None in Hy.
Qed.

(** ** infer_filename *)




Lemma rfind_char_None (c : ascii) (s : string) :
  rfind (String c "") s = None → char_in c s = false.
Proof.
  induction s as [|d s IH]; [done|]. cbn [rfind char_in].
  destruct (rfind (String c "") s); [done|]. simpl.
  destruct (decide (c = d)); [done|]. intros _. by apply IH.
Qed.

Lemma rfind_char_Some (c : ascii) (s : string) (i : nat) :
  rfind (String c "") s = Some i →
  s = str_take i s +:+ String c (str_drop (S i) s)
  ∧ char_in c (str_drop (S i) s) = false.
Proof.
  revert i. induction s as [|d s IH]; intros i; [done|]. cbn [rfind].
  destruct (rfind (String c "") s) as [j|] eqn:Hj.
  - intros [= <-]. destruct (IH j eq_refl) as [H1 H2]. split; [|done].
    change (String d s = String d (str_take j s +:+ String c (str_drop (S j) s))).
    by f_equal.
  - simpl. destruct (decide (c = d)) as [->|]; [|done]. intros [= <-].
    split; [by destruct s|]. apply rfind_char_None in Hj. by destruct s.
Qed.

(** [basename] gives the last segment: what follows the last slash. *)
Lemma basename_spec (p : string) :
  ∃ dir, p = dir +:+ basename p
         ∧ char_in "/" (basename p) = false
         ∧ (dir = "" ∨ ∃ d, dir = d +:+ "/").
Proof.
  unfold basename. destruct (rfind "/" p) as [i|] eqn:Hi.
  - apply rfind_char_Some in Hi as [H1 H2].
    exists (str_take i p +:+ "/"). split_and!; [|done|right; by eexists].
    by rewrite <- app_assoc_str.
  - exists "". split_and!; [done| |by left]. by apply rfind_char_None.
Qed.

Lemma infer_filename_cases (url : string) (headers : gmap string string) :
  let content_disposition := default "" (headers !! "Content-Disposition") in
  let token := disposition_token content_disposition in
  let segment := basename (path (urlparse url)) in
  infer_filename url headers
  = if contains "filename=" content_disposition && negb (bool_decide (token = ""))
    then token
    else if decide (segment = "") then "downloaded_file" else segment.
Proof.
  simpl. unfold infer_filename, disposition_token.
  destruct (contains "filename=" _); [|done]. simpl.
  by destruct (decide (strip_chars dquote _ = "")) as [->| ?];
    [|rewrite bool_decide_eq_false_2].
Qed.



(** ** download_file *)

Lemma free_name_free (env : Env) (dir : string) (w : World) (name : string) :
  free_name env dir w = Some name → files w !! path_join dir name = None.
Proof.
  unfold free_name. destruct (list_find _ _) as [[i n]|] eqn:H; [|done].
  intros [= <-]. by apply list_find_Some in H as (_ & H & _).
Qed.

Section download_file_paths.
Context (env : Env) (url output_dir : string) (headers : gmap string string)
        (timeout : Z) (w : World).

(** The client raises. *)
Lemma download_file_client_error (e : exn) :
  http_get env (length (requests w)) url headers timeout = Fails e →
  download_file env url output_dir headers timeout w = (Raise e, requested url headers w).
Proof. intros H. unfold download_file, bind, urlopen, logging, mkdir. simpl. by rewrite H. Qed.

(** The response has a status other than 200. *)
Lemma download_file_bad_status (response : Response) :
  http_get env (length (requests w)) url headers timeout = Responds response →
  status response ≠ 200%Z →
  download_file env url output_dir headers timeout w
  = (Raise (DownloadError (HttpStatus (status response) url)), requested url headers w).
Proof.
  intros H Hs. unfold download_file, bind, urlopen, logging, mkdir. simpl. rewrite H.
  by rewrite decide_False.
Qed.

(** No temporary file can be created. *)
Lemma download_file_no_temp (response : Response) :
  http_get env (length (requests w)) url headers timeout = Responds response →
  status response = 200%Z →
  free_name env output_dir w = None →
  download_file env url output_dir headers timeout w = (Raise FileExistsError, add_temp (requested url headers w)).
Proof.
  intros H Hs Hn. unfold download_file, bind, urlopen, logging, mkdir. simpl. rewrite H.
  rewrite decide_True by done. unfold NamedTemporaryFile, ret.
  change (free_name env output_dir (add_request url headers (add_log INFO (Downloading url) w)))
    with (free_name env output_dir w). by rewrite Hn.
Qed.

(** The stream breaks: what was received stays in the temporary file. *)
Lemma download_file_interrupted (response : Response) (name : string) (data : list byte) :
  http_get env (length (requests w)) url headers timeout = Responds response →
  status response = 200%Z →
  free_name env output_dir w = Some name →
  payload response = Interrupted data →
  download_file env url output_dir headers timeout w
  = (Raise IncompleteRead,
     set_files (<[path_join output_dir name := data]> (files w)) (add_temp (requested url headers w))).
Proof.
  intros H Hs Hn Hp. unfold download_file, bind, urlopen, logging, mkdir. simpl. rewrite H.
  rewrite decide_True by done. unfold NamedTemporaryFile, ret.
  change (free_name env output_dir (add_request url headers (add_log INFO (Downloading url) w)))
    with (free_name env output_dir w). rewrite Hn.
  unfold copyfileobj. rewrite Hp. unfold set_files. simpl.
  by rewrite insert_insert_eq.
Qed.

(** The body is empty: the temporary file is removed again. *)
Lemma download_file_empty (response : Response) (name : string) :
  http_get env (length (requests w)) url headers timeout = Responds response →
  status response = 200%Z →
  free_name env output_dir w = Some name →
  payload response = Complete [] →
  download_file env url output_dir headers timeout w
  = (Raise (DownloadError (DownloadedFileIsEmpty (destination url output_dir response))),
     add_temp (requested url headers w)).
Proof.
  intros H Hs Hn Hp. pose proof (free_name_free _ _ _ _ Hn) as Hfree.
  unfold download_file, bind, urlopen, logging, mkdir. simpl. rewrite H.
  rewrite decide_True by done. unfold NamedTemporaryFile, ret.
  change (free_name env output_dir (add_request url headers (add_log INFO (Downloading url) w)))
    with (free_name env output_dir w). rewrite Hn.
  unfold copyfileobj. rewrite Hp. unfold getsize, set_files. simpl.
  rewrite lookup_insert_eq. simpl.
  unfold path_exists, os_remove, raise, set_files. simpl.
  repeat first [rewrite lookup_insert_eq | rewrite delete_insert_eq | progress simpl].
  rewrite delete_id by done. done.
Qed.

(** The body is there: it ends up at the destination and nowhere else. *)
Lemma download_file_saved (response : Response) (name : string) (data : list byte) :
  http_get env (length (requests w)) url headers timeout = Responds response →
  status response = 200%Z →
  free_name env output_dir w = Some name →
  payload response = Complete data →
  data ≠ [] →
  download_file env url output_dir headers timeout w
  = (Ok (destination url output_dir response),
     add_log INFO (Saved (destination url output_dir response) (length data))
       (set_files (<[destination url output_dir response := data]> (files w))
          (add_temp (requested url headers w)))).
Proof.
  intros H Hs Hn Hp Hd. pose proof (free_name_free _ _ _ _ Hn) as Hfree.
  unfold download_file, bind, urlopen, logging, mkdir. simpl. rewrite H.
  rewrite decide_True by done. unfold NamedTemporaryFile, ret.
  change (free_name env output_dir (add_request url headers (add_log INFO (Downloading url) w)))
    with (free_name env output_dir w). rewrite Hn.
  unfold copyfileobj. rewrite Hp. unfold getsize, set_files. simpl.
  rewrite lookup_insert_eq. simpl.
  rewrite decide_False by (by destruct data).
  unfold os_replace, set_files. simpl.
  repeat first [rewrite lookup_insert_eq | rewrite delete_insert_eq | progress simpl].
  rewrite delete_id by done. done.
Qed.

End download_file_paths.





(** A call that returns went through every step. *)
Lemma download_file_Ok_inv (env : Env) (url output_dir : string)
    (headers : gmap string string) (timeout : Z) (w w' : World) (p : string) :
  download_file env url output_dir headers timeout w = (Ok p, w') →
  ∃ response data name,
    http_get env (length (requests w)) url headers timeout = Responds response
    ∧ status response = 200%Z
    ∧ payload response = Complete data
    ∧ data ≠ []
    ∧ free_name env output_dir w = Some name
    ∧ p = destination url output_dir response
    ∧ w' = add_log INFO (Saved p (length data))
             (set_files (<[p := data]> (files w)) (add_temp (requested url headers w))).
Proof.
  intros Hrun.
  destruct (http_get env (length (requests w)) url headers timeout) as [response|e] eqn:H.
  2: { by rewrite (download_file_client_error _ _ _ _ _ _ e H) in Hrun. }
  destruct (decide (status response = 200%Z)) as [Hs|Hs].
  2: { by rewrite (download_file_bad_status _ _ _ _ _ _ _ H Hs) in Hrun. }
  destruct (free_name env output_dir w) as [name|] eqn:Hn.
  2: { by rewrite (download_file_no_temp _ _ _ _ _ _ _ H Hs Hn) in Hrun. }
  destruct (payload response) as [data|data] eqn:Hp.
  2: { by rewrite (download_file_interrupted _ _ _ _ _ _ _ _ _ H Hs Hn Hp) in Hrun. }
  destruct (decide (data = [])) as [->|Hd].
  { by rewrite (download_file_empty _ _ _ _ _ _ _ _ H Hs Hn Hp) in Hrun. }
  rewrite (download_file_saved _ _ _ _ _ _ _ _ _ H Hs Hn Hp Hd) in Hrun.
  injection Hrun as <- <-. by exists response, data, name.
Qed.



(** Every call sends exactly one request and only adds to the log. *)
Lemma download_file_effects (env : Env) (url output_dir : string)
    (headers : gmap string string) (timeout : Z) (w w' : World) (r : Result string) :
  download_file env url output_dir headers timeout w = (r, w') →
  requests w' = requests w ++ [(url, headers)]
  ∧ ∃ entries, log w' = log w ++ entries.
Proof.
  intros Hrun.
  assert (∀ v, v = (r, w') →
    (requests v.2 = requests w ++ [(url, headers)] ∧ ∃ entries, log v.2 = log w ++ entries) →
    requests w' = requests w ++ [(url, headers)] ∧ ∃ entries, log w' = log w ++ entries)
    as Hgo by (by intros ? ->).
  destruct (http_get env (length (requests w)) url headers timeout) as [response|e] eqn:H.
  2: { rewrite (download_file_client_error _ _ _ _ _ _ e H) in Hrun.
       eapply Hgo; [exact Hrun|]. simpl. eauto. }
  destruct (decide (status response = 200%Z)) as [Hs|Hs].
  2: { rewrite (download_file_bad_status _ _ _ _ _ _ _ H Hs) in Hrun.
       eapply Hgo; [exact Hrun|]. simpl. eauto. }
  destruct (free_name env output_dir w) as [name|] eqn:Hn.
  2: { rewrite (download_file_no_temp _ _ _ _ _ _ _ H Hs Hn) in Hrun.
       eapply Hgo; [exact Hrun|]. simpl. eauto. }
  destruct (payload response) as [data|data] eqn:Hp.
  2: { rewrite (download_file_interrupted _ _ _ _ _ _ _ _ _ H Hs Hn Hp) in Hrun.
       eapply Hgo; [exact Hrun|]. simpl. eauto. }
  destruct (decide (data = [])) as [->|Hd].
  { rewrite (download_file_empty _ _ _ _ _ _ _ _ H Hs Hn Hp) in Hrun.
    eapply Hgo; [exact Hrun|]. simpl. eauto. }
  rewrite (download_file_saved _ _ _ _ _ _ _ _ _ H Hs Hn Hp Hd) in Hrun.
  eapply Hgo; [exact Hrun|]. simpl. rewrite <- app_assoc. eauto.
Qed.

(** ** main *)

Lemma attempt_ok (env : Env) (output_dir : string) (headers : gmap string string)
    (timeout : Z) (failures : list string) (url p : string) (w w1 : World) :
  download_file env url output_dir headers timeout w = (Ok p, w1) →
  attempt env output_dir headers timeout failures url w = (Ok failures, w1).
Proof. intros H. unfold attempt, try_except, bind, ret. by rewrite H. Qed.

Lemma attempt_failed (env : Env) (output_dir : string) (headers : gmap string string)
    (timeout : Z) (failures : list string) (url : string) (e : exn) (w w1 : World) :
  download_file env url output_dir headers timeout w = (Raise e, w1) →
  attempt env output_dir headers timeout failures url w
  = (Ok (failures ++ [url]), add_log ERROR (FailedToDownload url e) w1).
Proof. intros H. unfold attempt, try_except, bind, ret, logging. by rewrite H. Qed.

(** The loop calls [download_file] for every URL, whatever the calls
    before gave, and collects the URLs whose call raised. *)
Lemma download_all_attempts (env : Env) (output_dir : string)
    (headers : gmap string string) (timeout : Z) (urls : list string) :
  ∀ (failures : list string) (w : World),
  ∃ outcomes w',
    Attempts env output_dir headers timeout w urls outcomes w'
    ∧ outcomes.*1 = urls
    ∧ download_all env output_dir headers timeout failures urls w
      = (Ok (failures ++ failed_urls outcomes), w').
Proof.
  induction urls as [|url urls IH]; intros failures w.
  - exists [], w. split_and!; [constructor|done|]. simpl. unfold ret.
    by rewrite app_nil_r.
  - destruct (download_file env url output_dir headers timeout w) as [[p|e] w1] eqn:Hrun.
    + destruct (IH failures w1) as (outcomes & w' & Hatt & Hurls & Hall).
      exists ((url, Ok p) :: outcomes), w'. split_and!.
      * by econstructor.
      * by rewrite fmap_cons, Hurls.
      * cbn [download_all]. unfold bind at 1. by rewrite (attempt_ok _ _ _ _ _ _ _ _ _ Hrun).
    + destruct (IH (failures ++ [url]) (add_log ERROR (FailedToDownload url e) w1))
        as (outcomes & w' & Hatt & Hurls & Hall).
      exists ((url, Raise e) :: outcomes), w'. split_and!.
      * by eapply Attempts_failed.
      * by rewrite fmap_cons, Hurls.
      * cbn [download_all]. unfold bind at 1.
        rewrite (attempt_failed _ _ _ _ _ _ _ _ _ Hrun), Hall.
        by rewrite <- app_assoc.
Qed.

Lemma Attempts_log_extends (env : Env) (output_dir : string)
    (headers : gmap string string) (timeout : Z) (w w' : World) (urls : list string)
    (outcomes : list (string * Result string)) :
  Attempts env output_dir headers timeout w urls outcomes w' →
  ∃ entries, log w' = log w ++ entries.
Proof.
  induction 1 as [w|w url p w1 urls outcomes w2 Hrun _ [l2 IH]
                    |w url e w1 urls outcomes w2 Hrun _ [l2 IH]].
  - exists []. by rewrite app_nil_r.
  - apply download_file_effects in Hrun as [_ [l1 Hl1]].
    exists (l1 ++ l2). by rewrite IH, Hl1, app_assoc.
  - apply download_file_effects in Hrun as [_ [l1 Hl1]]. simpl in IH.
    exists (l1 ++ [(ERROR, FailedToDownload url e)] ++ l2).
    by rewrite IH, Hl1, <- !app_assoc.
Qed.

(** One request per URL, in the order of the list. *)
Lemma Attempts_requests (env : Env) (output_dir : string)
    (headers : gmap string string) (timeout : Z) (w w' : World) (urls : list string)
    (outcomes : list (string * Result string)) :
  Attempts env output_dir headers timeout w urls outcomes w' →
  requests w' = requests w ++ ((λ url, (url, headers)) <$> urls).
Proof.
  induction 1 as [w|w url p w1 urls outcomes w2 Hrun _ IH
                    |w url e w1 urls outcomes w2 Hrun _ IH].
  - by rewrite app_nil_r.
  - apply download_file_effects in Hrun as [Hreq _].
    rewrite IH, Hreq, fmap_cons. by rewrite <- app_assoc.
  - apply download_file_effects in Hrun as [Hreq _]. simpl in IH.
    rewrite IH, Hreq, fmap_cons. by rewrite <- app_assoc.
Qed.

(** Every failure is in the log with its URL and its cause. *)
Lemma Attempts_failures_logged (env : Env) (output_dir : string)
    (headers : gmap string string) (timeout : Z) (w w' : World) (urls : list string)
    (outcomes : list (string * Result string)) :
  Attempts env output_dir headers timeout w urls outcomes w' →
  ∀ url e, (url, Raise e) ∈ outcomes → (ERROR, FailedToDownload url e) ∈ log w'.
Proof.
  induction 1 as [w|w url p w1 urls outcomes w2 Hrun Hrest IH
                    |w url e w1 urls outcomes w2 Hrun Hrest IH]; intros u e' Hin.
  - by apply elem_of_nil in Hin.
  - apply elem_of_cons in Hin as [[=]|Hin]. by apply IH.
  - apply elem_of_cons in Hin as [[= -> ->]|Hin]; [|by apply IH].
    destruct (Attempts_log_extends _ _ _ _ _ _ _ _ Hrest) as [l ->]. simpl.
    rewrite !elem_of_app, list_elem_of_singleton. tauto.
Qed.

Lemma failed_urls_spec (outcomes : list (string * Result string)) (url : string) :
  url ∈ failed_urls outcomes ↔ ∃ e, (url, Raise e) ∈ outcomes.
Proof.
  unfold failed_urls. rewrite list_elem_of_omap. split.
  - intros ([u [p|e]] & Hin & Heq); simplify_eq/=. by exists e.
  - intros [e Hin]. by exists (url, Raise e).
Qed.

Lemma failed_urls_nil (outcomes : list (string * Result string)) :
  failed_urls outcomes = [] ↔ ∀ url r, (url, r) ∈ outcomes → ∃ p, r = Ok p.
Proof.
  split.
  - intros Hnil url [p|e] Hin; [by exists p|].
    assert (url ∈ failed_urls outcomes) as H by (apply failed_urls_spec; eauto).
    rewrite Hnil in H. by apply elem_of_nil in H.
  - intros Hall. destruct (failed_urls outcomes) as [|url l] eqn:E; [done|].
    assert (url ∈ failed_urls outcomes) as H by (rewrite E; left).
    apply failed_urls_spec in H as [e Hin]. by destruct (Hall _ _ Hin).
Qed.

Lemma main_no_urls (env : Env) (args : Args) (w : World) :
  collect_urls env args = Ok [] →
  main env args w = (Ok 2%Z, add_log ERROR NoUrlsProvided w).
Proof. intros H. unfold main, bind, lift. by rewrite H. Qed.

Lemma first_malformed (extra_headers : list string) :
  (∃ raw_header, raw_header ∈ extra_headers ∧ contains ":" raw_header = false) →
  ∃ good bad rest,
    extra_headers = good ++ bad :: rest
    ∧ Forall (λ raw_header, contains ":" raw_header = true) good
    ∧ contains ":" bad = false.
Proof.
  induction extra_headers as [|x l IH]; intros (raw & Hin & Hraw).
  - by apply elem_of_nil in Hin.
  - destruct (contains ":" x) eqn:Hx.
    + destruct IH as (good & bad & rest & -> & Hgood & Hbad).
      { apply elem_of_cons in Hin as [->|Hin]; [congruence|]. eauto. }
      exists (x :: good), bad, rest. split_and!; [done| |done]. by constructor.
    + exists [], x, l. split_and!; [done|constructor|done].
Qed.

(** C3 as stated fails: with a malformed header argument a run that has
    URLs attempts none of them. *)
Lemma main_attempts_every_url_counterexample :
  ¬ (∀ env args w urls,
       collect_urls env args = Ok urls → urls ≠ [] →
       ∃ code w', main env args w = (Ok code, w')
                  ∧ (requests w').*1 = (requests w).*1 ++ urls).
Proof.
  intros H.
  destruct (H example_env (example_args [zip_url] None ["BadHeader"]) empty_world [zip_url])
    as (code & w' & Hmain & _); [reflexivity|done|].
  vm_compute in Hmain. discriminate.
Qed.

(** C3, amended: when the header arguments are well formed, [main] calls
    [download_file] for every collected URL, in order, whatever the calls
    before gave; it ends with status 0 when no call raised and with
    status 1 otherwise, every failing URL being logged with its cause and
    listed in the last log line.  When no URL was collected it ends with
    status 2 and sends no request. *)
Theorem main_exit_status (env : Env) (args : Args) (w : World) (urls : list string) :
  collect_urls env args = Ok urls →
  (urls = [] →
     main env args w = (Ok 2%Z, add_log ERROR NoUrlsProvided w)
     ∧ requests (main env args w).2 = requests w
     ∧ files (main env args w).2 = files w)
  ∧ (∀ headers,
       urls ≠ [] →
       build_headers (args_user_agent args) (args_referer args) (args_header args)
       = Ok headers →
       ∃ outcomes w1,
         Attempts env (args_output_dir args) headers (args_timeout args) w urls outcomes w1
         ∧ outcomes.*1 = urls
         ∧ requests w1 = requests w ++ ((λ url, (url, headers)) <$> urls)
         ∧ (∀ url, url ∈ failed_urls outcomes ↔ ∃ e, (url, Raise e) ∈ outcomes)
         ∧ (∀ url e, (url, Raise e) ∈ outcomes →
              (ERROR, FailedToDownload url e) ∈ log w1)
         ∧ ((∀ url r, (url, r) ∈ outcomes → ∃ p, r = Ok p) →
              main env args w = (Ok 0%Z, add_log INFO AllCompleted w1))
         ∧ ((∃ url e, (url, Raise e) ∈ outcomes) →
              main env args w
              = (Ok 1%Z, add_log ERROR (FailedDownloads (failed_urls outcomes)) w1))).
Proof.
  intros Hurls. split.
  - intros ->. by rewrite (main_no_urls _ _ _ Hurls).
  - intros headers Hne Hheaders.
    destruct (download_all_attempts env (args_output_dir args) headers (args_timeout args)
                urls [] w) as (outcomes & w1 & Hatt & Hfst & Hall).
    exists outcomes, w1.
    assert (main env args w
            = match failed_urls outcomes with
              | [] => (Ok 0%Z, add_log INFO AllCompleted w1)
              | _ :: _ => (Ok 1%Z, add_log ERROR (FailedDownloads (failed_urls outcomes)) w1)
              end) as Hmain.
    { unfold main, bind, lift. rewrite Hurls. destruct urls as [|u urls']; [done|].
      rewrite Hheaders, Hall. simpl. by destruct (failed_urls outcomes). }
    split_and!; [done|done| | | | |].
    + by eapply Attempts_requests.
    + apply failed_urls_spec.
    + by eapply Attempts_failures_logged.
    + intros Hok. apply failed_urls_nil in Hok. by rewrite Hmain, Hok.
    + intros (url & e & Hin). rewrite Hmain.
      destruct (failed_urls outcomes) as [|u l] eqn:E; [|done].
      assert (url ∈ failed_urls outcomes) as Hf by (apply failed_urls_spec; eauto).
      rewrite E in Hf. by apply elem_of_nil in Hf.
Qed.

Lemma main_exit_status_witness :
  ∃ headers outcomes w1,
    Attempts example_env "data/raw" headers 30 empty_world [zip_url; missing_url]
      outcomes w1
    ∧ failed_urls outcomes = [missing_url]
    ∧ main example_env (example_args [zip_url; missing_url; zip_url] None ["Accept: */*"])
        empty_world
      = (Ok 1%Z, add_log ERROR (FailedDownloads [missing_url]) w1).
Proof.
  pose (args := example_args [zip_url; missing_url; zip_url] None ["Accept: */*"]).
  destruct (main_exit_status example_env args empty_world [zip_url; missing_url])
    as [_ Hrun]; [vm_compute; reflexivity|].
  destruct (Hrun (<["Accept" := "*/*"]> {["User-Agent" := DEFAULT_USER_AGENT]}))
    as (outcomes & w1 & Hatt & _ & _ & _ & _ & _ & Hfail);
    [done|vm_compute; reflexivity|].
  exists (<["Accept" := "*/*"]> {["User-Agent" := DEFAULT_USER_AGENT]}), outcomes, w1.
  assert (failed_urls outcomes = [missing_url]) as Hfailed.
  { inversion Hatt as [|? ? ? ? ? ? ? Hfirst Hrest|? ? ? ? ? ? ? Hfirst Hrest]; subst;
      [|vm_compute in Hfirst; discriminate].
    inversion Hrest as [|? ? ? ? ? ? ? Hsecond Hlast|? ? ? ? ? ? ? Hsecond Hlast]; subst;
      [apply download_file_Ok_inv in Hsecond as (r & ? & ? & Hget & Hs & _);
       vm_compute in Hget; injection Hget as <-; discriminate|].
    inversion Hlast; subst. reflexivity. }
  split; [exact Hatt|]. split; [exact Hfailed|].
  rewrite <- Hfailed. apply Hfail.
  destruct (failed_urls_spec outcomes missing_url) as [Hin _].
  destruct Hin as [e He]; [rewrite Hfailed; by left|]. by exists missing_url, e.
Defined.

(** C6 as stated fails: without any URL the run ends with status 2 and
    never looks at the header arguments. *)
Lemma main_malformed_header_counterexample :
  ¬ (∀ env args w,
       (∃ raw_header, raw_header ∈ args_header args ∧ contains ":" raw_header = false) →
       ∃ why w', main env args w = (Raise (DownloadError why), w')
                 ∧ requests w' = requests w).
Proof.
  intros H.
  destruct (H example_env (example_args [] None ["BadHeader"]) empty_world)
    as (why & w' & Hmain & _).
  - exists "BadHeader". split; [by left|reflexivity].
  - rewrite main_no_urls in Hmain by reflexivity. discriminate.
Qed.

(** C6, amended: in a run that collected at least one URL, a header
    argument without a colon makes [main] end with the [DownloadError]
    of [build_headers]; the world is untouched, so no request was sent
    and no URL downloaded. *)
Theorem main_malformed_header (env : Env) (args : Args) (w : World) (urls : list string) :
  collect_urls env args = Ok urls →
  urls ≠ [] →
  (∃ raw_header, raw_header ∈ args_header args ∧ contains ":" raw_header = false) →
  ∃ bad,
    bad ∈ args_header args
    ∧ contains ":" bad = false
    ∧ build_headers (args_user_agent args) (args_referer args) (args_header args)
      = Raise (DownloadError (InvalidHeaderFormat bad))
    ∧ main env args w = (Raise (DownloadError (InvalidHeaderFormat bad)), w).
Proof.
  intros Hurls Hne Hbad.
  apply first_malformed in Hbad as (good & bad & rest & Hsplit & Hgood & Hbad).
  assert (build_headers (args_user_agent args) (args_referer args) (args_header args)
          = Raise (DownloadError (InvalidHeaderFormat bad))) as Hbuild.
  { unfold build_headers. rewrite Hsplit. by apply add_headers_Raise. }
  exists bad. split_and!; [|done|done|].
  - rewrite Hsplit, elem_of_app, elem_of_cons. tauto.
  - unfold main, bind, lift. rewrite Hurls. destruct urls as [|u urls']; [done|].
    by rewrite Hbuild.
Qed.

Lemma main_malformed_header_witness :
  main example_env (example_args [zip_url] (Some "urls.txt") ["Accept: */*"; "BadHeader"])
    empty_world
  = (Raise (DownloadError (InvalidHeaderFormat "BadHeader")), empty_world).
Proof.
  destruct (main_malformed_header example_env
              (example_args [zip_url] (Some "urls.txt") ["Accept: */*"; "BadHeader"])
              empty_world [zip_url; missing_url])
    as (bad & Hin & Hbad & Hbuild & Hmain).
  - vm_compute. reflexivity.
  - done.
  - exists "BadHeader". split; [|reflexivity]. right. by left.
  - assert (bad = "BadHeader") as ->; [|exact Hmain].
    vm_compute in Hbuild. by injection Hbuild as <-.
Defined.

(** * Further properties *)

(** ** download_file: what a call can do to the files *)

(** Every way in which a call can raise. *)
Lemma download_file_Raise_inv (env : Env) (url output_dir : string)
    (headers : gmap string string) (timeout : Z) (w w' : World) (e : exn) :
  download_file env url output_dir headers timeout w = (Raise e, w') →
  (http_get env (length (requests w)) url headers timeout = Fails e
   ∧ w' = requested url headers w)
  ∨ ∃ response,
      http_get env (length (requests w)) url headers timeout = Responds response
      ∧ ((status response ≠ 200%Z
          ∧ e = DownloadError (HttpStatus (status response) url)
          ∧ w' = requested url headers w)
         ∨ (status response = 200%Z
            ∧ free_name env output_dir w = None
            ∧ e = FileExistsError
            ∧ w' = add_temp (requested url headers w))
         ∨ (∃ name data,
              status response = 200%Z
              ∧ free_name env output_dir w = Some name
              ∧ payload response = Interrupted data
              ∧ e = IncompleteRead
              ∧ w' = set_files (<[path_join output_dir name := data]> (files w))
                       (add_temp (requested url headers w)))
         ∨ (∃ name,
              status response = 200%Z
              ∧ free_name env output_dir w = Some name
              ∧ payload response = Complete []
              ∧ e = DownloadError (DownloadedFileIsEmpty (destination url output_dir response))
              ∧ w' = add_temp (requested url headers w))).
Proof.
  intros Hrun.
  destruct (http_get env (length (requests w)) url headers timeout) as [response|e0] eqn:H.
  2: { rewrite (download_file_client_error _ _ _ _ _ _ e0 H) in Hrun.
       injection Hrun as <- <-. by left. }
  right. exists response. split; [done|].
  destruct (decide (status response = 200%Z)) as [Hs|Hs].
  2: { rewrite (download_file_bad_status _ _ _ _ _ _ _ H Hs) in Hrun.
       injection Hrun as <- <-. by left. }
  right.
  destruct (free_name env output_dir w) as [name|] eqn:Hn.
  2: { rewrite (download_file_no_temp _ _ _ _ _ _ _ H Hs Hn) in Hrun.
       injection Hrun as <- <-. by left. }
  right.
  destruct (payload response) as [data|data] eqn:Hp.
  2: { rewrite (download_file_interrupted _ _ _ _ _ _ _ _ _ H Hs Hn Hp) in Hrun.
       injection Hrun as <- <-. left. by exists name, data. }
  right.
  destruct (decide (data = [])) as [->|Hd].
  { rewrite (download_file_empty _ _ _ _ _ _ _ _ H Hs Hn Hp) in Hrun.
    injection Hrun as <- <-. by exists name. }
  by rewrite (download_file_saved _ _ _ _ _ _ _ _ _ H Hs Hn Hp Hd) in Hrun.
Qed.






(** X3: [download_file] raises [DownloadError] for exactly two reasons of
    its own, a status other than 200 and an empty body; any other
    [DownloadError] is one that the HTTP client itself raised. *)
Theorem download_file_error_causes (env : Env) (url output_dir : string)
    (headers : gmap string string) (timeout : Z) (w w' : World) (why : Failure) :
  download_file env url output_dir headers timeout w = (Raise (DownloadError why), w') →
  http_get env (length (requests w)) url headers timeout = Fails (DownloadError why)
  ∨ ∃ response,
      http_get env (length (requests w)) url headers timeout = Responds response
      ∧ ((status response ≠ 200%Z ∧ why = HttpStatus (status response) url)
         ∨ (status response = 200%Z ∧ payload response = Complete []
            ∧ why = DownloadedFileIsEmpty (destination url output_dir response)))
      ∧ files w' = files w.
Proof.
  intros Hrun.
  apply download_file_Raise_inv in Hrun
    as [[H _]|(response & H & [(Hs & [= ->] & ->)|[(_ & _ & [=] & _)
        |[(name & data & _ & _ & _ & [=] & _)|(name & Hs & _ & Hp & [= ->] & ->)]]])].
  - by left.
  - right. exists response. split_and!; [done|by left|done].
  - right. exists response. split_and!; [done|by right|done].
Qed.

Lemma download_file_error_causes_witness :
  ∃ response,
    http_get example_env 0 missing_url ∅ 30 = Responds response
    ∧ status response = 404%Z.
Proof.
  destruct (download_file_error_causes example_env missing_url "data/raw" ∅ 30 empty_world
              (requested missing_url ∅ empty_world) (HttpStatus 404 missing_url))
    as [Hclient|(response & Hget & [[_ Hwhy]|(_ & _ & Hwhy)] & _)].
  - vm_compute. reflexivity.
  - vm_compute in Hclient. discriminate.
  - exists response. split; [done|]. by injection Hwhy as <-.
  - discriminate.
Defined.

(** ** The name of the file *)

Lemma infer_filename_ext (url : string) (h1 h2 : gmap string string) :
  h1 !! "Content-Disposition" = h2 !! "Content-Disposition" →
  infer_filename url h1 = infer_filename url h2.
Proof. intros H. unfold infer_filename. by rewrite H. Qed.

Lemma infer_filename_quoted (url : string) (headers : gmap string string)
    (pre name : string) :
  headers !! "Content-Disposition"
  = Some (pre +:+ "filename=" +:+ dquote +:+ name +:+ dquote) →
  contains "filename=" (dquote +:+ name +:+ dquote) = false →
  name ≠ "" → trimmed (λ c, char_in c dquote) name →
  infer_filename url headers = name.
Proof.
  intros Hcd Hno Hne Htrim.
  pose proof (infer_filename_cases url headers) as Hquoted. cbv zeta in Hquoted.
  rewrite Hquoted, Hcd. unfold default. cbn [from_option id].
  rewrite (contains_app "filename=" pre (dquote +:+ name +:+ dquote)).
  unfold disposition_token.
  rewrite (last_split "filename=" pre (dquote +:+ name +:+ dquote))
    by (done || apply filename_unbordered).
  rewrite unquote by done. by rewrite bool_decide_eq_false_2.
Qed.

(** X4: the response headers are looked up by their exact name, and of
    two headers with the same name the later one counts.  A response
    without a header spelled [Content-Disposition] is named from the URL
    alone, also when it has the header under another spelling. *)
Theorem response_headers_by_exact_name (items : list (string * string)) :
  (∀ name, dict_of_items items !! name = last_value name items)
  ∧ ("Content-Disposition" ∉ items.*1 →
     ∀ url, infer_filename url (dict_of_items items) = infer_filename url ∅).
Proof.
  assert (∀ name, dict_of_items items !! name = last_value name items) as Hlook.
  { intros name. unfold dict_of_items. rewrite foldl_assign_lookup.
    destruct (last_value name items); [done|]. apply lookup_empty. }
  split; [done|]. intros Hno url. apply infer_filename_ext.
  rewrite Hlook, lookup_empty. by apply last_value_None.
Qed.

Lemma response_headers_by_exact_name_witness :
  infer_filename lowercase_url
    (dict_of_items [("content-disposition", survey_disposition)]) = "table.csv"
  ∧ dict_of_items [("X-Id", "1"); ("X-Id", "2")] !! "X-Id" = Some "2".
Proof.
  destruct (response_headers_by_exact_name [("content-disposition", survey_disposition)])
    as [_ Hurl].
  destruct (response_headers_by_exact_name [("X-Id", "1"); ("X-Id", "2")]) as [Hlast _].
  split.
  - rewrite Hurl; [vm_compute; reflexivity|].
    intros H. apply elem_of_cons in H as [H|H]; [discriminate|]. by apply elem_of_nil in H.
  - rewrite Hlast. reflexivity.
Defined.

(** X5: a quoted file name in the Content-Disposition header that starts
    with a slash is used as it is: a call that returns then returns that
    absolute path, whatever the output directory, and the body is there. *)
Theorem download_file_absolute_name (env : Env) (url output_dir : string)
    (headers : gmap string string) (timeout : Z) (w w' : World) (p : string)
    (response : Response) (pre name : string) :
  download_file env url output_dir headers timeout w = (Ok p, w') →
  http_get env (length (requests w)) url headers timeout = Responds response →
  dict_of_items (resp_headers response) !! "Content-Disposition"
  = Some (pre +:+ "filename=" +:+ dquote +:+ name +:+ dquote) →
  contains "filename=" (dquote +:+ name +:+ dquote) = false →
  trimmed (λ c, char_in c dquote) name →
  startswith "/" name = true →
  p = name ∧ ∃ data, payload response = Complete data ∧ files w' !! name = Some data.
Proof.
  intros Hrun Hget Hcd Hno Htrim Habs.
  apply download_file_Ok_inv in Hrun
    as (response' & data & tmp & Hget' & _ & Hp & _ & _ & Hdest & ->).
  assert (response' = response) as -> by congruence.
  assert (p = name) as ->.
  { rewrite Hdest. unfold destination.
    rewrite (infer_filename_quoted url _ pre name Hcd Hno); [|by destruct name|done].
    unfold path_join. by rewrite Habs. }
  split; [done|]. exists data. split; [done|]. simpl. apply lookup_insert_eq.
Qed.

Lemma download_file_absolute_name_witness :
  ∃ w', download_file second_env report_url "data/raw" ∅ 30 empty_world
        = (Ok "/tmp/report.csv", w')
      ∧ files w' !! "/tmp/report.csv" = Some [Byte.x61].
Proof.
  eexists. split; [vm_compute; reflexivity|].
  match goal with
  | |- files ?w' !! _ = _ =>
      destruct (download_file_absolute_name second_env report_url "data/raw" ∅ 30
                  empty_world w' "/tmp/report.csv"
                  {| status := 200;
                     resp_headers :=
                       [("Content-Disposition", "attachment; filename=first.csv");
                        ("Content-Disposition",
                         "attachment; filename=" +:+ dquote +:+ "/tmp/report.csv" +:+ dquote)];
                     payload := Complete [Byte.x61] |}
                  "attachment; " "/tmp/report.csv")
        as (_ & data & Hp & Hfile)
  end.
  - vm_compute. reflexivity.
  - vm_compute. reflexivity.
  - vm_compute. reflexivity.
  - vm_compute. reflexivity.
  - split; intros c Hc; vm_compute in Hc; injection Hc as <-; reflexivity.
  - reflexivity.
  - injection Hp as <-. exact Hfile.
Defined.

Lemma char_in_take (c : ascii) (n : nat) (s : string) :
  char_in c s = false → char_in c (str_take n s) = false.
Proof.
  revert s. induction n as [|n IH]; intros [|d s]; simpl; try done.
  destruct (decide (c = d)); [done|]. apply IH.
Qed.

Lemma char_in_drop (c : ascii) (n : nat) (s : string) :
  char_in c s = false → char_in c (str_drop n s) = false.
Proof.
  revert s. induction n as [|n IH]; intros [|d s]; simpl; try done.
  destruct (decide (c = d)); [done|]. apply IH.
Qed.

(** The part in front of a cut is free of the cut character and keeps
    being free of whatever the whole was free of. *)
Lemma cut_at_fst (c : ascii) (s : string) :
  char_in c (cut_at (String c "") s).1 = false
  ∧ ∀ d, char_in d s = false → char_in d (cut_at (String c "") s).1 = false.
Proof.
  unfold cut_at. destruct (find (String c "") s) as [i|] eqn:Hi; simpl.
  - apply find_char_Some in Hi as [_ Hi]. split; [done|].
    intros d Hd. by apply char_in_take.
  - apply find_char_None in Hi. done.
Qed.

Lemma splitparams_fst (d : ascii) (s : string) :
  char_in d s = false → char_in d (splitparams s).1 = false.
Proof.
  intros Hd. unfold splitparams.
  destruct (rfind "/" s) as [j|].
  - destruct (find ";" (str_drop j s)); simpl; [by apply char_in_take|done].
  - destruct (find ";" s); simpl; [by apply char_in_take|done].
Qed.

(** The path component holds neither a question mark nor a hash. *)
Lemma urlparse_path_plain (url : string) :
  char_in "?" (path (urlparse url)) = false ∧ char_in "#" (path (urlparse url)) = false.
Proof.
  unfold urlparse.
  destruct (split_scheme (url_clean url)) as [sch u1].
  destruct (split_netloc u1) as [nl u2].
  destruct (cut_at_fst "#" u2) as [Hhash _].
  destruct (cut_at "#" u2) as [u3 frag]. simpl in Hhash.
  destruct (cut_at_fst "?" u3) as [Hq Hkeep].
  destruct (cut_at "?" u3) as [u4 qry]. simpl in Hq, Hkeep.
  specialize (Hkeep _ Hhash).
  destruct (bool_decide (sch ∈ uses_params) && contains ";" u4).
  - pose proof (splitparams_fst "?" u4 Hq). pose proof (splitparams_fst "#" u4 Hkeep).
    by destruct (splitparams u4).
  - done.
Qed.

Lemma basename_keeps (d : ascii) (p : string) :
  char_in d p = false → char_in d (basename p) = false.
Proof.
  intros Hd. unfold basename. destruct (rfind "/" p); [by apply char_in_drop|done].
Qed.

(** X6: a name that [infer_filename] takes from the URL, because the
    headers give none, is not empty and holds no slash, question mark or
    hash; joined to a non-empty output directory it gives a path that
    starts with that directory. *)
Theorem infer_filename_from_url_plain (url : string) (headers : gmap string string) :
  contains "filename=" (default "" (headers !! "Content-Disposition")) = false
  ∨ disposition_token (default "" (headers !! "Content-Disposition")) = "" →
  infer_filename url headers ≠ ""
  ∧ char_in "/" (infer_filename url headers) = false
  ∧ char_in "?" (infer_filename url headers) = false
  ∧ char_in "#" (infer_filename url headers) = false
  ∧ ∀ output_dir, output_dir ≠ "" →
      ∃ sep, (sep = "" ∨ sep = "/")
             ∧ path_join output_dir (infer_filename url headers)
               = output_dir +:+ sep +:+ infer_filename url headers.
Proof.
  intros Hno.
  pose proof (infer_filename_cases url headers) as Hcases. cbv zeta in Hcases.
  assert (infer_filename url headers
          = if decide (basename (path (urlparse url)) = "") then "downloaded_file"
            else basename (path (urlparse url))) as Hname.
  { rewrite Hcases. destruct Hno as [-> | ->]; [done|]. by rewrite andb_false_r. }
  destruct (urlparse_path_plain url) as [Hq Hh].
  destruct (basename_spec (path (urlparse url))) as (_ & _ & Hslash & _).
  assert (infer_filename url headers ≠ ""
          ∧ char_in "/" (infer_filename url headers) = false
          ∧ char_in "?" (infer_filename url headers) = false
          ∧ char_in "#" (infer_filename url headers) = false) as (Hne & H1 & H2 & H3).
  { rewrite Hname. destruct (decide (basename (path (urlparse url)) = "")); [done|].
    split_and!; [done|done|by apply basename_keeps..]. }
  split_and!; [done..|].
  intros output_dir Hdir. unfold path_join.
  assert (startswith "/" (infer_filename url headers) = false) as ->.
  { destruct (infer_filename url headers) as [|c s]; [done|]. simpl in *.
    by destruct (decide ("/"%char = c)). }
  rewrite decide_False by done.
  destruct (endswith_slash output_dir); [exists ""|exists "/"]; eauto.
Qed.

Lemma infer_filename_from_url_plain_witness :
  infer_filename report_url ∅ = "get"
  ∧ path_join "data/raw" (infer_filename report_url ∅) = "data/raw/get".
Proof.
  destruct (infer_filename_from_url_plain report_url ∅) as (_ & _ & _ & _ & Hjoin);
    [left; reflexivity|].
  destruct (Hjoin "data/raw") as (sep & _ & Hpath); [done|].
  split; vm_compute; reflexivity.
Defined.

(** ** Reading the URL file *)

(** X7: a URL file that cannot be opened ends the run at once: [main]
    raises the error of [open], also when URLs were given directly; no
    request is sent and nothing is logged. *)
Theorem main_unreadable_url_file (env : Env) (args : Args) (w : World) (p : string) :
  args_url_file args = Some p →
  p ≠ "" →
  text_file env p = None →
  collect_urls env args = Raise (OSError p)
  ∧ main env args w = (Raise (OSError p), w).
Proof.
  intros Hfile Hp Htext.
  assert (collect_urls env args = Raise (OSError p)) as Hcollect.
  { unfold collect_urls, read_url_file. rewrite Hfile. simpl.
    rewrite decide_False by done. by rewrite Htext. }
  split; [done|]. unfold main, bind, lift. by rewrite Hcollect.
Qed.

Lemma main_unreadable_url_file_witness :
  main example_env (example_args [zip_url] (Some "nowhere.txt") []) empty_world
  = (Raise (OSError "nowhere.txt"), empty_world).
Proof.
  apply (main_unreadable_url_file example_env
           (example_args [zip_url] (Some "nowhere.txt") []) empty_world "nowhere.txt");
    [reflexivity|done|reflexivity].
Defined.

Lemma universal_newlines_app (u rest : string) :
  char_in (ascii_of_N 13) u = false →
  universal_newlines (u +:+ String (ascii_of_N 10) rest)
  = u +:+ String (ascii_of_N 10) (universal_newlines rest).
Proof.
  induction u as [|c u IH]; intros Hu.
  - rewrite !app_empty_l. reflexivity.
  - rewrite !app_cons. cbn [char_in] in Hu. cbn [universal_newlines].
    destruct (decide (ascii_of_N 13 = c)) as [|Hc]; [done|].
    rewrite decide_False by done. by rewrite IH.
Qed.

Lemma lines_of_app (u rest : string) :
  char_in (ascii_of_N 10) u = false →
  lines_of (u +:+ String (ascii_of_N 10) rest)
  = (u +:+ String (ascii_of_N 10) "") :: lines_of rest.
Proof.
  induction u as [|c u IH]; intros Hu.
  - rewrite !app_empty_l. reflexivity.
  - rewrite !app_cons. cbn [char_in] in Hu. cbn [lines_of].
    destruct (decide (ascii_of_N 10 = c)) as [|Hc]; [done|].
    rewrite decide_False by done. by rewrite IH.
Qed.

Lemma readlines_unlines (entries : list string) :
  Forall plain_entry entries →
  readlines (unlines entries) = (λ u, u +:+ String (ascii_of_N 10) "") <$> entries.
Proof.
  unfold readlines. induction 1 as [|u entries (_ & _ & Hlf & Hcr) _ IH]; [done|].
  cbn [unlines]. rewrite universal_newlines_app by done.
  rewrite lines_of_app by done. by rewrite IH.
Qed.

Lemma strip_line (u : string) :
  trimmed isspace u → strip (u +:+ String (ascii_of_N 10) "") = u.
Proof.
  intros [Hhead Hlast]. unfold strip, strip_by.
  rewrite rstrip_by_app by done. rewrite rstrip_by_id by done. by apply lstrip_by_id.
Qed.

Lemma filter_strip_lines (entries : list string) :
  Forall plain_entry entries →
  filter is_url_line (strip <$> ((λ u, u +:+ String (ascii_of_N 10) "") <$> entries))
  = entries.
Proof.
  induction 1 as [|u entries (Hline & Htrim & _) _ IH]; [done|].
  rewrite !fmap_cons, filter_cons, strip_line by done.
  rewrite decide_True by done. by rewrite IH.
Qed.

(** X8: a URL file written with one URL per line reads back as the list
    that was written, for URLs without white space at their ends, without
    a line break inside, not empty and not starting with [#]. *)
Theorem read_url_file_unlines (env : Env) (p : string) (urls : list string) :
  p ≠ "" →
  text_file env p = Some (unlines urls) →
  Forall plain_entry urls →
  read_url_file env (Some p) = Ok urls.
Proof.
  intros Hp Htext Hplain. unfold read_url_file. simpl.
  rewrite decide_False by done. rewrite Htext. f_equal.
  rewrite foldl_url_line, readlines_unlines by done.
  rewrite app_nil_l. by apply filter_strip_lines.
Qed.

Lemma read_url_file_unlines_witness :
  read_url_file (env_with_file "list.txt" (unlines [zip_url; missing_url]))
    (Some "list.txt") = Ok [zip_url; missing_url].
Proof.
  apply read_url_file_unlines; [done|vm_compute; reflexivity|].
  repeat constructor; try discriminate;
    intros c Hc; vm_compute in Hc; injection Hc as <-; reflexivity.
Defined.

(** ** The de-duplication loop *)

Lemma keep_first_NoDup (urls acc : list string) (seen : gset string) :
  (∀ x, x ∈ seen ↔ x ∈ acc) →
  NoDup (acc ++ urls) →
  (foldl keep_first (acc, seen) urls).1 = acc ++ urls.
Proof.
  revert acc seen. induction urls as [|x urls IH]; intros acc seen Hseen Hnd.
  - by rewrite app_nil_r.
  - cbn [foldl]. unfold keep_first at 2. cbn [fst snd].
    assert (x ∉ acc) as Hx.
    { apply NoDup_app in Hnd as (_ & Hdisj & _). intros Hin. apply (Hdisj x Hin). by left. }
    rewrite decide_False by (by rewrite Hseen).
    rewrite IH.
    + by rewrite <- app_assoc.
    + intros y. rewrite elem_of_union, elem_of_singleton, elem_of_app,
        list_elem_of_singleton, Hseen. tauto.
    + by rewrite <- app_assoc.
Qed.

Lemma unique_in_order_sublist (urls : list string) :
  unique_in_order urls `sublist_of` urls.
Proof.
  unfold unique_in_order. induction urls as [|x urls IH] using rev_ind; [done|].
  rewrite foldl_snoc. unfold keep_first at 1.
  destruct (decide (x ∈ (foldl keep_first ([], ∅) urls).2)); cbn [fst].
  - by apply sublist_inserts_r.
  - by apply sublist_app.
Qed.

(** X9: the list that the loop of [collect_urls] builds is a sublist of
    its input; an input without duplicates comes back unchanged; and
    running the loop on its own output changes nothing. *)
Theorem unique_in_order_stable (urls : list string) :
  unique_in_order urls `sublist_of` urls
  ∧ (NoDup urls → unique_in_order urls = urls)
  ∧ unique_in_order (unique_in_order urls) = unique_in_order urls.
Proof.
  assert (∀ l, NoDup l → unique_in_order l = l) as Hid.
  { intros l Hl. unfold unique_in_order. rewrite keep_first_NoDup; [done|set_solver|done]. }
  split_and!; [apply unique_in_order_sublist|apply Hid|].
  apply Hid. by destruct (keep_first_invariant urls) as (_ & Hnd & _).
Qed.

Lemma unique_in_order_stable_witness :
  unique_in_order [zip_url; missing_url; empty_url] = [zip_url; missing_url; empty_url].
Proof.
  destruct (unique_in_order_stable [zip_url; missing_url; empty_url]) as (_ & Hsame & _).
  apply Hsame. apply (bool_decide_unpack _). vm_compute. exact I.
Defined.

(** ** build_headers: when it raises *)

Lemma build_headers_Raise (user_agent : string) (referer : option string)
    (good : list string) (bad : string) (rest : list string) :
  Forall (λ raw_header, contains ":" raw_header = true) good →
  contains ":" bad = false →
  build_headers user_agent referer (good ++ bad :: rest)
  = Raise (DownloadError (InvalidHeaderFormat bad)).
Proof. intros Hgood Hbad. unfold build_headers. by apply add_headers_Raise. Qed.

(** X10: [build_headers] returns a map exactly when every extra entry has
    a colon.  Otherwise it raises [DownloadError] with the first entry
    that has none, whatever comes after it, and it raises nothing else. *)
Theorem build_headers_outcome (user_agent : string) (referer : option string)
    (extra_headers : list string) :
  ((∃ m, build_headers user_agent referer extra_headers = Ok m)
   ↔ Forall (λ raw_header, contains ":" raw_header = true) extra_headers)
  ∧ (∀ good bad rest,
       extra_headers = good ++ bad :: rest →
       Forall (λ raw_header, contains ":" raw_header = true) good →
       contains ":" bad = false →
       build_headers user_agent referer extra_headers
       = Raise (DownloadError (InvalidHeaderFormat bad)))
  ∧ (∀ e, build_headers user_agent referer extra_headers = Raise e →
       ∃ good bad rest,
         extra_headers = good ++ bad :: rest
         ∧ Forall (λ raw_header, contains ":" raw_header = true) good
         ∧ contains ":" bad = false
         ∧ e = DownloadError (InvalidHeaderFormat bad)).
Proof.
  split_and!.
  - split.
    + intros [m Hm]. by apply add_headers_inv in Hm.
    + intros Hwf. rewrite build_headers_Ok by done. by eexists.
  - intros good bad rest -> Hgood Hbad. by apply build_headers_Raise.
  - intros e He.
    destruct (decide (Forall (λ raw_header, contains ":" raw_header = true) extra_headers))
      as [Hwf|Hwf].
    { rewrite build_headers_Ok in He by done. discriminate. }
    apply not_Forall_Exists in Hwf; [|apply _].
    apply Exists_exists in Hwf as (raw & Hin & Hraw).
    destruct (first_malformed extra_headers) as (good & bad & rest & Hsplit & Hgood & Hbad).
    { exists raw. split; [done|]. by apply not_true_is_false. }
    exists good, bad, rest. split_and!; [done..|].
    rewrite Hsplit, build_headers_Raise in He by done. congruence.
Qed.

Lemma build_headers_outcome_witness :
  build_headers DEFAULT_USER_AGENT None ["Accept: */*"; "BadHeader"; "AlsoBad"]
  = Raise (DownloadError (InvalidHeaderFormat "BadHeader")).
Proof.
  apply (build_headers_outcome DEFAULT_USER_AGENT None
           ["Accept: */*"; "BadHeader"; "AlsoBad"])
    with (good := ["Accept: */*"]) (rest := ["AlsoBad"]);
    [reflexivity|by repeat constructor|reflexivity].
Defined.

Lemma isspace_no_colon (name : string) :
  str_forallb isspace name = true → char_in ":" name = false.
Proof.
  induction name as [|c name IH]; [done|]. simpl. intros [Hc Hname]%andb_true_iff.
  destruct (decide (":"%char = c)) as [<-|]; [done|]. by apply IH.
Qed.

Lemma strip_blank (s : string) : str_forallb isspace s = true → strip s = "".
Proof. intros H. unfold strip, strip_by. by rewrite rstrip_by_all. Qed.

(** X11: [build_headers] does not ask for a header name.  An entry whose
    text before the first colon is blank is accepted, and its value is
    stored under the empty name. *)
Theorem build_headers_blank_name (user_agent : string) (referer : option string)
    (extra_headers : list string) (blank value : string) :
  Forall (λ raw_header, contains ":" raw_header = true) extra_headers →
  str_forallb isspace blank = true →
  ∃ m, build_headers user_agent referer (extra_headers ++ [blank +:+ ":" +:+ value]) = Ok m
       ∧ m !! "" = Some (strip value).
Proof.
  intros Hwf Hblank.
  pose proof (isspace_no_colon _ Hblank) as Hcolon.
  assert (Forall (λ raw_header, contains ":" raw_header = true)
            (extra_headers ++ [blank +:+ ":" +:+ value])) as Hall.
  { apply Forall_app. split; [done|]. constructor; [|done].
    change (":" +:+ value) with (String ":" value). rewrite (contains_char ":").
    destruct (char_in ":" (blank +:+ String ":" value)) eqn:E; [done|].
    apply find_char_None in E. by rewrite find_char_app in E. }
  rewrite build_headers_Ok by done. eexists. split; [done|].
  pose proof (build_headers_last_entry user_agent referer extra_headers
                (blank +:+ ":" +:+ value) [] _ (build_headers_Ok _ _ _ Hall)) as Hlast.
  rewrite header_pair_first_colon, strip_blank in Hlast by done.
  apply Hlast. apply not_elem_of_nil.
Qed.

Lemma build_headers_blank_name_witness :
  ∃ m, build_headers DEFAULT_USER_AGENT None ["Accept: */*"; " : orphan "] = Ok m
       ∧ m !! "" = Some "orphan".
Proof.
  destruct (build_headers_blank_name DEFAULT_USER_AGENT None ["Accept: */*"] " " " orphan ")
    as (m & Hm & Hv); [by repeat constructor|reflexivity|].
  exists m. split; [exact Hm|exact Hv].
Defined.

(** ** main: the files and the log of a run *)








